(** * Striking-distance keyword report: the crawl-match-score pipeline

    A shallow embedding of [src/app.py] and the properties of its
    filter, crawl, match, score and categorise stages.

    Modelling conventions.
    - Python [str] values are Rocq [string]s (sequences of 8-bit
      characters); [str.lower] is modelled on the ASCII letters.
    - Integer cells ([position], [impressions], [clicks]) are [Z]; the
      float column [ctr] is carried through untouched by the code and is
      left out of the record.
    - A pandas frame is the list of its rows in frame order, plus a flag
      telling whether the optional [impressions] column is there.
    - The dictionary [crawl_results] is a [gmap string PageContent].
    - The network and the HTML parser are a function from URLs to fetch
      outcomes; the thread pool is the order in which the submitted
      fetches complete.
    - Library routines whose result the code does not determine are
      parameters: numpy's [argsort] behind [sort_values] (any sorting
      permutation), and, where a property does not depend on it, the test
      performed by [Series.str.contains].  For evaluation the first is
      instantiated by an insertion sort and the second by a matcher for
      the regular expressions made of ordinary characters, [.], [^] and
      [$]. *)

From Stdlib Require Import ZArith Ascii String List Sorted Permutation Lia Bool.
From stdpp Require Import base option list gmap strings sorting.

Local Open Scope string_scope.
Local Open Scope list_scope.
Local Open Scope Z_scope.

(** ** Strings *)

Module Str.

(** [c.lower()] on an ASCII character. *)
Definition lower_char (c : ascii) : ascii :=
  let n := nat_of_ascii c in
  if (65 <=? n)%nat && (n <=? 90)%nat then ascii_of_nat (n + 32) else c.

(** [s.lower()] *)
Fixpoint lower (s : string) : string :=
  match s with
  | EmptyString => EmptyString
  | String c s' => String (lower_char c) (lower s')
  end.

(** [s.startswith(p)] *)
Fixpoint starts_with (p s : string) : bool :=
  match p, s with
  | EmptyString, _ => true
  | String _ _, EmptyString => false
  | String a p', String b s' => Ascii.eqb a b && starts_with p' s'
  end.

(** [p in s]: does [p] occur in [s] as a contiguous substring? *)
Fixpoint contains (p s : string) : bool :=
  starts_with p s ||
  match s with
  | EmptyString => false
  | String _ s' => contains p s'
  end.

(** Python truthiness of a string: [not s] holds for the empty string. *)
Definition is_empty (s : string) : bool :=
  match s with EmptyString => true | String _ _ => false end.

(** The mathematical notion the code is compared against. *)
Definition substring_of (p s : string) : Prop :=
  exists pre post : string, s = pre +:+ p +:+ post.

(** [sep.join(parts)] *)
Fixpoint join (sep : string) (parts : list string) : string :=
  match parts with
  | [] => EmptyString
  | [x] => x
  | x :: rest => x +:+ sep +:+ join sep rest
  end.

(** ASCII white space, as removed by [str.strip]. *)
Definition is_space (c : ascii) : bool :=
  let n := nat_of_ascii c in
  ((9 <=? n)%nat && (n <=? 13)%nat) || ((28 <=? n)%nat && (n <=? 32)%nat).

Fixpoint lstrip (s : string) : string :=
  match s with
  | EmptyString => EmptyString
  | String c s' => if is_space c then lstrip s' else s
  end.

Fixpoint rstrip (s : string) : string :=
  match s with
  | EmptyString => EmptyString
  | String c s' =>
      match rstrip s' with
      | EmptyString => if is_space c then EmptyString else String c EmptyString
      | t => String c t
      end
  end.

(** [s.strip()] *)
Definition strip (s : string) : string := rstrip (lstrip s).

(** [s.split(sep)] for a single-character separator. *)
Fixpoint split (sep : ascii) (s : string) : list string :=
  match s with
  | EmptyString => [EmptyString]
  | String c s' =>
      if Ascii.eqb c sep then EmptyString :: split sep s'
      else match split sep s' with
           | [] => [String c EmptyString]
           | hd :: tl => String c hd :: tl
           end
  end.

(** [s[:n]] *)
Definition slice_to (n : nat) (s : string) : string := String.substring 0 n s.

(** [s.split('/')[-1]] *)
Definition last_segment (s : string) : string :=
  List.last (split "/" s) EmptyString.

End Str.

(** ** KeywordMatcher: [check_keyword_presence] *)

Definition check_keyword_presence (keyword text : string) : bool :=
  if Str.is_empty text || Str.is_empty keyword then false
  else Str.contains (Str.lower keyword) (Str.lower text).

(** ** Data model *)

Record KeywordRecord := {
  url : string;
  keyword : string;
  position : Z;
  impressions : Z;
  clicks : Z
}.

(** A row of [results_df]: the record's own cells plus the cells added by
    [result.update(...)]. *)
Record MatchedRecord := {
  base : KeywordRecord;
  in_title : bool;
  in_h1 : bool;
  in_content : bool;
  page_title : string;
  optimization_score : Z
}.

(** A row of the frame returned by
    [calculate_striking_distance_opportunities]. *)
Record Opportunity := {
  o_url : string;
  o_keyword : string;
  o_position : Z;
  o_score : Z;
  o_recommendations : string
}.

(** ** OpportunityScorer *)

(** [row.get('impressions', 0)]: the cell when the column exists. *)
Definition row_get_impressions (has_impressions : bool) (r : KeywordRecord) : Z :=
  if has_impressions then impressions r else 0.

(** The body of the scoring loop: the running [score] and the
    [recommendations] list, in the order the rules are tried. *)
Definition score_rules (position : Z) (in_title in_h1 in_content : bool)
    (impressions : Z) : Z * list string :=
  let '(score, recommendations) :=
    if (3 <=? position) && (position <=? 5)
    then (30, ["Very close to top 3 - high priority"])
    else if (6 <=? position) && (position <=? 10)
    then (20, ["On page 1 - good opportunity"])
    else if (11 <=? position) && (position <=? 20)
    then (10, ["On page 2 - worth optimizing"])
    else (0, []) in
  let '(score, recommendations) :=
    if negb in_title
    then (score + 15, recommendations ++ ["Add keyword to title tag"])
    else (score, recommendations) in
  let '(score, recommendations) :=
    if negb in_h1
    then (score + 10, recommendations ++ ["Add keyword to H1 tag"])
    else (score, recommendations) in
  let '(score, recommendations) :=
    if negb in_content
    then (score + 5, recommendations ++ ["Include keyword naturally in content"])
    else (score, recommendations) in
  let '(score, recommendations) :=
    if 1000 <? impressions
    then (score + 10, recommendations ++ ["High search volume keyword"])
    else (score, recommendations) in
  (score, recommendations).

Definition opportunity_of (has_impressions : bool) (row : MatchedRecord) : Opportunity :=
  let '(score, recommendations) :=
    score_rules (position (base row)) (in_title row) (in_h1 row) (in_content row)
                (row_get_impressions has_impressions (base row)) in
  {| o_url := url (base row);
     o_keyword := keyword (base row);
     o_position := position (base row);
     o_score := score;
     o_recommendations := Str.join " | " recommendations |}.

Definition calculate_striking_distance_opportunities
    (has_impressions : bool) (df : list MatchedRecord) : list Opportunity :=
  List.map (opportunity_of has_impressions) df.

(** ** The pattern matcher behind [Series.str.contains]

    [str.contains(term, na=False)] is called with its defaults, so pandas
    compiles [term] as a regular expression and keeps the rows where
    [re.search] finds a match.  The fragment modelled here is the one
    built from ordinary characters, [.], [^] and [$]; a pattern using any
    other metacharacter is outside the fragment and [re_compile] answers
    [None] for it. *)

Module Re.

Inductive atom :=
| Lit (c : ascii)   (* an ordinary character *)
| AnyChar           (* [.]: any character but a newline *)
| Bol               (* [^]: start of the string *)
| Eol.              (* [$]: end of the string, or just before a final newline *)

Definition newline : ascii := "010"%char.

Definition unsupported (c : ascii) : bool :=
  existsb (Ascii.eqb c)
    ["\"; "*"; "+"; "?"; "{"; "}"; "["; "]"; "("; ")"; "|"]%char.

Definition atom_of (c : ascii) : option atom :=
  if unsupported c then None
  else if Ascii.eqb c "." then Some AnyChar
  else if Ascii.eqb c "^" then Some Bol
  else if Ascii.eqb c "$" then Some Eol
  else Some (Lit c).

Fixpoint re_compile (pat : string) : option (list atom) :=
  match pat with
  | EmptyString => Some []
  | String c pat' =>
      match atom_of c, re_compile pat' with
      | Some a, Some re => Some (a :: re)
      | _, _ => None
      end
  end.

Definition at_end (s : string) : bool :=
  match s with
  | EmptyString => true
  | String c EmptyString => Ascii.eqb c newline
  | _ => false
  end.

(** Does [re] match a prefix of [s]?  [at_start] tells whether [s] is
    the whole subject string. *)
Fixpoint match_here (at_start : bool) (re : list atom) (s : string) : bool :=
  match re with
  | [] => true
  | Bol :: re' => at_start && match_here at_start re' s
  | Eol :: re' => at_end s && match_here at_start re' s
  | Lit c :: re' =>
      match s with
      | EmptyString => false
      | String d s' => Ascii.eqb c d && match_here false re' s'
      end
  | AnyChar :: re' =>
      match s with
      | EmptyString => false
      | String d s' => negb (Ascii.eqb d newline) && match_here false re' s'
      end
  end.

Fixpoint search_from (at_start : bool) (re : list atom) (s : string) : bool :=
  match_here at_start re s ||
  match s with
  | EmptyString => false
  | String _ s' => search_from false re s'
  end.

(** [re.search(re, s) is not None] *)
Definition re_search (re : list atom) (s : string) : bool := search_from true re s.

(** The test applied by [str.contains(pat)] to each string of the column,
    when [pat] is in the fragment. *)
Definition str_contains (pat : string) : option (string -> bool) :=
  re_search <$> re_compile pat.

(** A pattern that stands for itself: no metacharacter at all. *)
Definition literal (pat : string) : bool :=
  forallb (fun c => negb (unsupported c || Ascii.eqb c "." || Ascii.eqb c "^" || Ascii.eqb c "$"))
          (list_ascii_of_string pat).

End Re.

(** ** FilterPipeline (step 1 of the report) *)

Record DataFrame := {
  has_impressions : bool;       (* ['impressions' in df.columns] *)
  rows : list KeywordRecord
}.

Inductive CrawlOption := CrawlUrlsAutomatically | UseSampleContent.

(** The sidebar settings read by the report. *)
Record Settings := {
  crawl_option : CrawlOption;
  max_urls : nat;
  position_range : Z * Z;
  blocklist_input : string;
  min_impressions : Z
}.

Definition position_filter (position_range : Z * Z) (df : list KeywordRecord) : list KeywordRecord :=
  List.filter (fun r => (fst position_range <=? position r) && (position r <=? snd position_range)) df.

Definition impressions_filter (has_impressions : bool) (min_impressions : Z)
    (filtered_df : list KeywordRecord) : list KeywordRecord :=
  if has_impressions
  then List.filter (fun r => min_impressions <=? impressions r) filtered_df
  else filtered_df.

(** [[term.strip().lower() for term in blocklist_input.split('\n') if term.strip()]] *)
Definition parse_blocklist (blocklist_input : string) : list string :=
  List.map (fun term => Str.lower (Str.strip term))
    (List.filter (fun term => negb (Str.is_empty (Str.strip term)))
       (Str.split Re.newline blocklist_input)).

Section Blocklist.

(** What [Series.str.contains(term, na=False)] does with a term: the test
    it applies to each string of the column, or [None] when the call does
    not return. *)
Variable str_contains : string -> option (string -> bool).

(** [filtered_df['keyword'].str.lower().str.contains(term, na=False)], row by row. *)
Definition keyword_hit (test : string -> bool) (r : KeywordRecord) : bool :=
  test (Str.lower (keyword r)).

(** The [for term in blocklist] loop, threading [filtered_df] and
    [blocklist_removed]. *)
Fixpoint apply_blocklist_with (blocklist : list string)
    (filtered_df blocklist_removed : list KeywordRecord)
    : option (list KeywordRecord * list KeywordRecord) :=
  match blocklist with
  | [] => Some (filtered_df, blocklist_removed)
  | term :: blocklist' =>
      match str_contains term with
      | None => None
      | Some test =>
          let removed := List.filter (keyword_hit test) filtered_df in
          apply_blocklist_with blocklist'
            (List.filter (fun r => negb (keyword_hit test r)) filtered_df)
            (blocklist_removed ++ removed)
      end
  end.

(** Lines 349-364: the pair [(filtered_df, blocklist_removed)]. *)
Definition filter_keywords_with (s : Settings) (df : DataFrame)
    : option (list KeywordRecord * list KeywordRecord) :=
  let filtered_df := position_filter (position_range s) (rows df) in
  let filtered_df := impressions_filter (has_impressions df) (min_impressions s) filtered_df in
  if Str.is_empty (blocklist_input s) then Some (filtered_df, [])
  else apply_blocklist_with (parse_blocklist (blocklist_input s)) filtered_df [].

End Blocklist.

(** The filter stage with the modelled pattern search; [None] when a term
    leaves the modelled fragment. *)
Definition apply_blocklist := apply_blocklist_with Re.str_contains.

Definition filter_keywords := filter_keywords_with Re.str_contains.

(** ** PageFetcher and the crawl coordinator (step 2) *)

Record PageContent := {
  pc_url : string;
  title : string;
  h1 : string;
  content : string;
  status : string
}.

(** What the network and the HTML parser do for one URL. *)
Inductive FetchOutcome :=
| Fetched (title h1 body : string)   (* the GET succeeded; the three extracted texts *)
| RequestFailed (msg : string)       (* a [requests.RequestException] *)
| Crashed (msg : string).            (* any other [Exception] raised in the body *)

(** [crawl_url]: its returned dictionary, or the message of the exception
    it lets escape. *)
Definition crawl_url (world : string -> FetchOutcome) (url : string) : PageContent + string :=
  match world url with
  | Fetched t h b =>
      inl {| pc_url := url; title := t; h1 := h;
             content := Str.slice_to 5000 b; status := "success" |}
  | RequestFailed msg =>
      inl {| pc_url := url; title := ""; h1 := ""; content := "";
             status := "error: " +:+ msg |}
  | Crashed msg => inr msg
  end.

(** The Failure result for a URL, with its reason. *)
Definition failure_page (url reason : string) : PageContent :=
  {| pc_url := url; title := ""; h1 := ""; content := "";
     status := "error: " +:+ reason |}.

(** The entry the coordinator is expected to hold for a URL: the fetcher's
    result, or a Failure when the fetch raised. *)
Definition entry_of (world : string -> FetchOutcome) (url : string) : PageContent :=
  match crawl_url world url with
  | inl result => result
  | inr e => failure_page url e
  end.

(** The body of the [for future in as_completed(...)] loop. *)
Definition collect (world : string -> FetchOutcome)
    (crawl_results : gmap string PageContent) (url : string) : gmap string PageContent :=
  match crawl_url world url with
  | inl result => <[url := result]> crawl_results
  | inr e =>
      <[url := {| pc_url := url; title := ""; h1 := ""; content := "";
                  status := "error: " +:+ e |}]> crawl_results
  end.

(** The coordinator: results are stored as the fetches complete. *)
Definition crawl_all (world : string -> FetchOutcome) (completed : list string)
    : gmap string PageContent :=
  foldl (collect world) ∅ completed.

Definition sample_content (url : string) : PageContent :=
  {| pc_url := url;
     title := "Sample Title for " +:+ Str.last_segment url;
     h1 := "Sample H1 Header for " +:+ Str.last_segment url;
     content := "This is sample content for " +:+ url +:+
                ". It contains various keywords and text.";
     status := "success" |}.

Definition sample_all (unique_urls : list string) : gmap string PageContent :=
  foldl (fun crawl_results url => <[url := sample_content url]> crawl_results) ∅ unique_urls.

(** [Series.unique()]: the distinct values in order of first appearance. *)
Fixpoint unique_from (seen : list string) (l : list string) : list string :=
  match l with
  | [] => []
  | x :: l' =>
      if existsb (String.eqb x) seen then unique_from seen l'
      else x :: unique_from (x :: seen) l'
  end.

Definition unique (l : list string) : list string := unique_from [] l.

(** [filtered_df['url'].unique()[:max_urls]] *)
Definition unique_urls_of (max_urls : nat) (filtered_df : list KeywordRecord) : list string :=
  take max_urls (unique (List.map url filtered_df)).

(** ** Matching the keywords against the pages (step 3) *)

Record NotFoundRow := { nf_url : string; nf_keyword : string }.

Definition bool_to_Z (b : bool) : Z := if b then 1 else 0.

(** One turn of the [for idx, row in filtered_df.iterrows()] loop. *)
Definition check_row (crawl_results : gmap string PageContent) (row : KeywordRecord)
    : MatchedRecord + NotFoundRow :=
  match crawl_results !! url row with
  | Some crawl_data =>
      if String.eqb (status crawl_data) "success" then
        let t := check_keyword_presence (keyword row) (title crawl_data) in
        let h := check_keyword_presence (keyword row) (h1 crawl_data) in
        let c := check_keyword_presence (keyword row) (content crawl_data) in
        inl {| base := row; in_title := t; in_h1 := h; in_content := c;
               page_title := Str.slice_to 100 (title crawl_data);
               optimization_score := bool_to_Z t + bool_to_Z h + bool_to_Z c |}
      else inr {| nf_url := url row; nf_keyword := keyword row |}
  | None => inr {| nf_url := url row; nf_keyword := keyword row |}
  end.

(** The whole loop: the lists [results] and [urls_not_found]. *)
Fixpoint check_keywords (crawl_results : gmap string PageContent)
    (filtered_df : list KeywordRecord) : list MatchedRecord * list NotFoundRow :=
  match filtered_df with
  | [] => ([], [])
  | row :: rest =>
      let '(results, urls_not_found) := check_keywords crawl_results rest in
      match check_row crawl_results row with
      | inl result => (result :: results, urls_not_found)
      | inr missing => (results, missing :: urls_not_found)
      end
  end.

(** ** Sorting a frame: [DataFrame.sort_values]

    pandas computes an indexer from the key column alone and then takes
    the rows through it.  The indexer comes from numpy's [argsort] with
    the default [kind]; that routine promises a sorting permutation and
    nothing about the order of equal keys, so it is a parameter of the
    model. *)

(** The keys read through an indexer. *)
Definition keys_through (ks : list Z) (indexer : list nat) : list Z :=
  omap (fun i => ks !! i) indexer.

(** [df.take(indexer)] *)
Definition take_rows {A : Type} (indexer : list nat) (df : list A) : list A :=
  omap (fun i => df !! i) indexer.

(** Missing cells ([NaN]) of a key column are [None]. *)
Definition non_nan (items : list (option Z)) : list (nat * Z) :=
  omap (fun p : nat * option Z => (fun k => (fst p, k)) <$> snd p)
       (zip (seq 0 (length items)) items).

Definition nan_idx (items : list (option Z)) : list nat :=
  omap (fun p : nat * option Z =>
          match snd p with None => Some (fst p) | Some _ => None end)
       (zip (seq 0 (length items)) items).

(** A reference [argsort]: insertion sort on (index, key) pairs, which
    keeps equal keys in their incoming order. *)
Fixpoint insert_by_key (p : nat * Z) (l : list (nat * Z)) : list (nat * Z) :=
  match l with
  | [] => [p]
  | q :: l' => if snd p <=? snd q then p :: l else q :: insert_by_key p l'
  end.

Definition insertion_argsort (ks : list Z) : list nat :=
  List.map fst (foldr insert_by_key [] (zip (seq 0 (length ks)) ks)).

(** A row of the final striking-distance frame: the matched record and
    the two columns brought in by the merge (missing when no row of the
    right frame has the key). *)
Record ScoredRecord := {
  matched : MatchedRecord;
  opportunity_score : option Z;
  recommendations : option string
}.

Definition same_key (l : MatchedRecord) (o : Opportunity) : bool :=
  String.eqb (url (base l)) (o_url o) && String.eqb (keyword (base l)) (o_keyword o).

(** [left.merge(right[['url','keyword','opportunity_score','recommendations']],
    on=['url','keyword'], how='left')]: every left row is paired with
    every right row carrying its key. *)
Definition merge_left (left : list MatchedRecord) (right : list Opportunity)
    : list ScoredRecord :=
  flat_map
    (fun l =>
       match List.filter (same_key l) right with
       | [] => [ {| matched := l; opportunity_score := None; recommendations := None |} ]
       | hits =>
           List.map (fun o => {| matched := l;
                                 opportunity_score := Some (o_score o);
                                 recommendations := Some (o_recommendations o) |}) hits
       end)
    left.

(** The four datasets stored at the end of the report. *)
Record Report := {
  striking_distance : list ScoredRecord;
  all_checks_passed : list MatchedRecord;
  blocklist_removed : list KeywordRecord;
  urls_not_found : list NotFoundRow
}.

Section Pipeline.

(** numpy's [argsort] with the default [kind]. *)
Variable argsort : list Z -> list nat.

(** The order in which the submitted fetches complete. *)
Variable as_completed : list string -> list string.

(** pandas' [nargsort]: the indexer of [sort_values] on one column. *)
Definition nargsort (items : list (option Z)) (ascending : bool) : list nat :=
  let non_nans := if ascending then non_nan items else reverse (non_nan items) in
  let indexer := omap (fun j => fst <$> non_nans !! j) (argsort (List.map snd non_nans)) in
  let indexer := if ascending then indexer else reverse indexer in
  indexer ++ nan_idx items.

Definition sort_values {A : Type} (by_ : A -> option Z) (ascending : bool)
    (df : list A) : list A :=
  take_rows (nargsort (List.map by_ df) ascending) df.

(** Step 2: the dictionary [crawl_results]. *)
Definition crawl_step (opt : CrawlOption) (world : string -> FetchOutcome)
    (unique_urls : list string) : gmap string PageContent :=
  match opt with
  | UseSampleContent => sample_all unique_urls
  | CrawlUrlsAutomatically => crawl_all world (as_completed unique_urls)
  end.

(** Step 4, lines 441-458. *)
Definition all_checks_passed_of (results_df : list MatchedRecord) : list MatchedRecord :=
  if (0 <? length results_df)%nat
  then List.filter (fun r => Bool.eqb (in_title r) true && Bool.eqb (in_h1 r) true
                             && Bool.eqb (in_content r) true) results_df
  else [].

Definition striking_distance_of (results_df : list MatchedRecord) : list MatchedRecord :=
  if (0 <? length results_df)%nat
  then sort_values (fun r => Some (position (base r))) true
         (List.filter (fun r => Bool.eqb (in_title r) false || Bool.eqb (in_h1 r) false
                                || Bool.eqb (in_content r) false) results_df)
  else [].

(** Lines 460-468: scores are computed, merged back and the frame is
    sorted on them. *)
Definition with_opportunities (has_impressions : bool)
    (striking : list MatchedRecord) : list ScoredRecord :=
  if (0 <? length striking)%nat
  then
    let opportunities_df := calculate_striking_distance_opportunities has_impressions striking in
    sort_values opportunity_score false (merge_left striking opportunities_df)
  else [].

(** Steps 2 to 4 on an already filtered frame. *)
Definition analyse (s : Settings) (world : string -> FetchOutcome)
    (has_impressions : bool) (filtered_df blocklist_removed : list KeywordRecord) : Report :=
  let unique_urls := unique_urls_of (max_urls s) filtered_df in
  let crawl_results := crawl_step (crawl_option s) world unique_urls in
  let '(results, urls_not_found) := check_keywords crawl_results filtered_df in
  {| striking_distance := with_opportunities has_impressions (striking_distance_of results);
     all_checks_passed := all_checks_passed_of results;
     blocklist_removed := blocklist_removed;
     urls_not_found := urls_not_found |}.

(** The report generated by [main] when the button is pressed. *)
Definition main (s : Settings) (world : string -> FetchOutcome) (df : DataFrame)
    : option Report :=
  match filter_keywords s df with
  | None => None
  | Some (filtered_df, blocklist_removed) =>
      Some (analyse s world (has_impressions df) filtered_df blocklist_removed)
  end.

End Pipeline.

(** ** The categories of the specification *)

Inductive Bucket := FullyOptimized | StrikingDistance | NotFound.

Definition bucket_eqb (a b : Bucket) : bool :=
  match a, b with
  | FullyOptimized, FullyOptimized
  | StrikingDistance, StrikingDistance
  | NotFound, NotFound => true
  | _, _ => false
  end.

(** The bucket the specification assigns to a filtered record: not-found
    when the URL is absent from the crawl map or was not fetched with
    success, fully-optimized when the three presence signals hold,
    striking-distance otherwise. *)
Definition bucket_of (crawl_results : gmap string PageContent) (r : KeywordRecord) : Bucket :=
  match crawl_results !! url r with
  | None => NotFound
  | Some page =>
      if negb (String.eqb (status page) "success") then NotFound
      else if check_keyword_presence (keyword r) (title page)
              && check_keyword_presence (keyword r) (h1 page)
              && check_keyword_presence (keyword r) (content page)
           then FullyOptimized
           else StrikingDistance
  end.

Definition in_bucket (crawl_results : gmap string PageContent) (b : Bucket)
    (filtered_df : list KeywordRecord) : list KeywordRecord :=
  List.filter (fun r => bucket_eqb (bucket_of crawl_results r) b) filtered_df.

Definition not_found_row (r : KeywordRecord) : NotFoundRow :=
  {| nf_url := url r; nf_keyword := keyword r |}.

(** ** Reading the blocklist as plain terms *)

(** The pattern of a term without metacharacters. *)
Fixpoint literal_atoms (pat : string) : list Re.atom :=
  match pat with
  | EmptyString => []
  | String c pat' => Re.Lit c :: literal_atoms pat'
  end.

(** The record's keyword, lower-cased, contains one of the terms. *)
Definition blocked (blocklist : list string) (r : KeywordRecord) : bool :=
  existsb (fun term => Str.contains term (Str.lower (keyword r))) blocklist.

(** The rows a blocklist of plain terms removes, pass by pass: the rows of
    the first term, then those of the remaining terms among the rows the
    first term left. *)
Fixpoint removed_by (blocklist : list string) (filtered_df : list KeywordRecord)
    : list KeywordRecord :=
  match blocklist with
  | [] => []
  | term :: blocklist' =>
      List.filter (fun r => Str.contains term (Str.lower (keyword r))) filtered_df ++
      removed_by blocklist'
        (List.filter (fun r => negb (Str.contains term (Str.lower (keyword r)))) filtered_df)
  end.

(** The position in the blocklist of the first term the keyword contains. *)
Fixpoint first_hit (blocklist : list string) (r : KeywordRecord) : option nat :=
  match blocklist with
  | [] => None
  | term :: blocklist' =>
      if Str.contains term (Str.lower (keyword r)) then Some 0%nat
      else S <$> first_hit blocklist' r
  end.

(** The distinct values of a list in order of first appearance, said
    directly: the values standing at the places where they have not
    occurred before. *)
Definition first_appearances (l : list string) : list string :=
  omap (fun i => x ← l !! i; if bool_decide (x ∈ take i l) then None else Some x)
       (seq 0 (length l)).

(** ** Reading the rows *)

(** The three presence signals of a matched row hold. *)
Definition all_present (m : MatchedRecord) : bool :=
  in_title m && in_h1 m && in_content m.

(** The identity key of a row. *)
Definition key_of (l : MatchedRecord) : string * string :=
  (url (base l), keyword (base l)).

(** The row expected for a striking-distance record: the record with its
    own score and recommendations. *)
Definition own_row (has : bool) (l : MatchedRecord) : ScoredRecord :=
  {| matched := l;
     opportunity_score := Some (o_score (opportunity_of has l));
     recommendations := Some (o_recommendations (opportunity_of has l)) |}.

(** What [argsort] is required to deliver. *)
Definition argsort_permutes (argsort : list Z -> list nat) : Prop :=
  forall ks : list Z, argsort ks ≡ₚ seq 0 (length ks).

Definition argsort_sorts (argsort : list Z -> list nat) : Prop :=
  forall ks : list Z, Sorted Z.le (keys_through ks (argsort ks)).

(** Every submitted fetch completes exactly once, in some order. *)
Definition completes_each_once (as_completed : list string -> list string) : Prop :=
  forall urls : list string, as_completed urls ≡ₚ urls.

(** [x] stands before [y] in [l]. *)
Definition occurs_before {A : Type} (x y : A) (l : list A) : Prop :=
  exists i j : nat, (i < j)%nat /\ l !! i = Some x /\ l !! j = Some y.

(** The frame is in descending order of its (present) opportunity scores. *)
Definition score_descending (out : list ScoredRecord) : Prop :=
  forall (i j : nat) (x y : ScoredRecord),
    (i < j)%nat -> out !! i = Some x -> out !! j = Some y ->
    exists sx sy : Z,
      opportunity_score x = Some sx /\ opportunity_score y = Some sy /\ sy <= sx.

(** Rows with equal scores stand in the order their records have in the
    filtered input. *)
Definition ties_keep_filter_order (filtered_df : list KeywordRecord)
    (out : list ScoredRecord) : Prop :=
  forall x y : ScoredRecord,
    occurs_before x y out ->
    opportunity_score x = opportunity_score y ->
    occurs_before (base (matched x)) (base (matched y)) filtered_df.

(** ** Worked inputs *)

Module Ex.

Definition settings : Settings :=
  {| crawl_option := CrawlUrlsAutomatically; max_urls := 50;
     position_range := (3, 20); blocklist_input := ""; min_impressions := 10 |}.

(** Scenario 1 of the specification. *)
Definition p1 : KeywordRecord :=
  {| url := "/p1"; keyword := "running shoes"; position := 4;
     impressions := 1200; clicks := 45 |}.

Definition p1_matched : MatchedRecord :=
  {| base := p1; in_title := false; in_h1 := false; in_content := true;
     page_title := "Shop"; optimization_score := 1 |}.

(** A shop whose pages all carry the same texts. *)
Definition shop (u : string) : FetchOutcome :=
  Fetched "All about shoes" "trail shoes and road shoes"
          "we sell trail shoes and road shoes".

(** The row of the final frame for a record matched against [shop] at a
    position between 3 and 5. *)
Definition scored (r : KeywordRecord) : ScoredRecord :=
  {| matched := {| base := r; in_title := false; in_h1 := true; in_content := true;
                   page_title := "All about shoes"; optimization_score := 2 |};
     opportunity_score := Some 45;
     recommendations :=
       Some "Very close to top 3 - high priority | Add keyword to title tag" |}.

Definition trail (pos : Z) : KeywordRecord :=
  {| url := "https://example.com/a"; keyword := "trail shoes"; position := pos;
     impressions := 100; clicks := 1 |}.

Definition road (pos : Z) : KeywordRecord :=
  {| url := "https://example.com/b"; keyword := "road shoes"; position := pos;
     impressions := 100; clicks := 1 |}.

(** Two rows of the built-in sample data: rows 0 and 10 share their URL
    and keyword. *)
Definition sample0 : KeywordRecord :=
  {| url := "https://example.com/page1"; keyword := "best running shoes";
     position := 4; impressions := 1200; clicks := 45 |}.

Definition sample10 : KeywordRecord :=
  {| url := "https://example.com/page1"; keyword := "best running shoes";
     position := 6; impressions := 1200; clicks := 45 |}.

Definition sample_frame : DataFrame :=
  {| has_impressions := true; rows := [sample0; sample10] |}.

Definition sample_settings : Settings :=
  {| crawl_option := UseSampleContent; max_urls := 50;
     position_range := (3, 20); blocklist_input := ""; min_impressions := 10 |}.

(** A price keyword and a blocklist of two prices. *)
Definition priced : KeywordRecord :=
  {| url := "https://example.com/deals"; keyword := "shoes from $50 to $100";
     position := 7; impressions := 400; clicks := 9 |}.

Definition price_blocklist : string := "$50" +:+ String Re.newline "$100".

Definition price_settings : Settings :=
  {| crawl_option := UseSampleContent; max_urls := 50;
     position_range := (3, 20); blocklist_input := price_blocklist;
     min_impressions := 10 |}.

(** A blocklist of two plain terms, both contained in one keyword. *)
Definition near_me : KeywordRecord :=
  {| url := "https://example.com/stores"; keyword := "Cheap shoes near me";
     position := 9; impressions := 250; clicks := 4 |}.

Definition plain_settings : Settings :=
  {| crawl_option := UseSampleContent; max_urls := 50;
     position_range := (3, 20);
     blocklist_input := "near me" +:+ String Re.newline "cheap";
     min_impressions := 10 |}.

(** A page that answered with nothing in it. *)
Definition blank_page : PageContent :=
  {| pc_url := "https://example.com/a"; title := ""; h1 := ""; content := "";
     status := "success" |}.

Definition shouting_settings : Settings :=
  {| crawl_option := UseSampleContent; max_urls := 50;
     position_range := (3, 20);
     blocklist_input := "NEAR ME" +:+ String Re.newline "Cheap";
     min_impressions := 10 |}.

Definition mixed_frame : DataFrame :=
  {| has_impressions := true; rows := [near_me; trail 25; road 6] |}.

Definition price_frame : DataFrame :=
  {| has_impressions := true; rows := [priced] |}.

(** One page answers, one request fails, one fetch crashes. *)
Definition flaky (u : string) : FetchOutcome :=
  if String.eqb u "https://example.com/a" then Fetched "Trail shoes" "Trail shoes" "trail shoes"
  else if String.eqb u "https://example.com/b" then RequestFailed "timed out"
  else Crashed "boom".

Definition hike (pos : Z) : KeywordRecord :=
  {| url := "https://example.com/a"; keyword := "hiking boots"; position := pos;
     impressions := 2000; clicks := 30 |}.

Definition three_rows : list KeywordRecord := [trail 4; road 6; hike 8].

(** Eleven records on eleven pages, and a cap of ten pages. *)
Definition on_page (name : string) : KeywordRecord :=
  {| url := "https://example.com/" +:+ name; keyword := "trail shoes";
     position := 7; impressions := 300; clicks := 2 |}.

Definition eleven : list KeywordRecord :=
  on_page <$> ["a"; "b"; "c"; "d"; "e"; "f"; "g"; "h"; "i"; "j"; "k"].

Definition capped_settings : Settings :=
  {| crawl_option := CrawlUrlsAutomatically; max_urls := 10;
     position_range := (3, 20); blocklist_input := ""; min_impressions := 10 |}.

(** The dictionary left by crawling the two URLs of [three_rows]. *)
Definition crawled : gmap string PageContent :=
  crawl_all flaky ["https://example.com/b"; "https://example.com/a"].

End Ex.

(** ** PageFetcher: from the parsed page to the page content

    Lines 92-122 of [crawl_url].  What the HTTP client and the HTML parser
    hand over is data here: the text of the first [title] element, the
    texts of the [h1] elements, and the text of the [body] as returned by
    [get_text(separator=' ', strip=True)] once scripts and styles are
    removed. *)

Module Page.

Record Parsed := {
  title_tag : option string;   (* [soup.find('title')], its [.text] *)
  h1_tags : list string;       (* [soup.find_all('h1')], their [.text] *)
  body : option string         (* [soup.find('body')], its [get_text(...)] *)
}.

Inductive Response :=
| Ok (page : Parsed)
| RequestException (msg : string)
| OtherException (msg : string).

(** [s.split()]: the maximal runs of characters that are not white space. *)
Fixpoint words (s : string) : list string :=
  match s with
  | EmptyString => []
  | String c s' =>
      if Str.is_space c then words s'
      else match s' with
           | EmptyString => [String c EmptyString]
           | String d _ =>
               if Str.is_space d then String c EmptyString :: words s'
               else match words s' with
                    | w :: ws => String c w :: ws
                    | [] => [String c EmptyString]
                    end
           end
  end.

(** [' '.join(content.split())] *)
Definition collapse (content : string) : string := Str.join " " (words content).

(** [title_tag.text.strip() if title_tag else ''] *)
Definition extract_title (p : Parsed) : string :=
  match title_tag p with
  | Some t => Str.strip t
  | None => EmptyString
  end.

(** [' '.join([h1.text.strip() for h1 in h1_tags])] *)
Definition extract_h1 (p : Parsed) : string :=
  Str.join " " (List.map Str.strip (h1_tags p)).

Definition extract_content (p : Parsed) : string :=
  match body p with
  | Some raw => collapse raw
  | None => EmptyString
  end.

(** The outcome of a fetch, as [crawl_url] sees it. *)
Definition world_of (fetch : string -> Response) (url : string) : FetchOutcome :=
  match fetch url with
  | Ok p => Fetched (extract_title p) (extract_h1 p) (extract_content p)
  | RequestException msg => RequestFailed msg
  | OtherException msg => Crashed msg
  end.

(** White space occurs in [s] only as single blanks, each followed by a
    character that is not white space. *)
Fixpoint blanks_single (s : string) : bool :=
  match s with
  | EmptyString => true
  | String c s' =>
      (if Str.is_space c
       then Ascii.eqb c " " &&
            match s' with
            | EmptyString => true
            | String d _ => negb (Str.is_space d)
            end
       else true) && blanks_single s'
  end.

(** No character of [w] is white space. *)
Fixpoint no_space (w : string) : bool :=
  match w with
  | EmptyString => true
  | String c w' => negb (Str.is_space c) && no_space w'
  end.

(** [s] does not begin with white space. *)
Definition no_leading_space (s : string) : bool :=
  match s with
  | EmptyString => true
  | String c _ => negb (Str.is_space c)
  end.

End Page.

(** ** The metrics shown above the report (lines 316-335) *)

(** [len(df)] *)
Definition total_keywords (df : DataFrame) : nat := length (rows df).

(** [df['url'].nunique()] *)
Definition unique_urls_metric (df : DataFrame) : nat :=
  length (unique (List.map url (rows df))).

(** [len(df[(df['position'] >= position_range[0]) & (df['position'] <= position_range[1])])] *)
Definition in_striking_distance (s : Settings) (df : DataFrame) : nat :=
  length (List.filter (fun r => (fst (position_range s) <=? position r)
                                && (position r <=? snd (position_range s))) (rows df)).

(** ** The optimization gaps chart (lines 548-555) *)

(** [len(sd[~sd['in_title']])] and its two siblings. *)
Definition missing_in_title (sd : list ScoredRecord) : nat :=
  length (List.filter (fun x => negb (in_title (matched x))) sd).

Definition missing_in_h1 (sd : list ScoredRecord) : nat :=
  length (List.filter (fun x => negb (in_h1 (matched x))) sd).

Definition missing_in_content (sd : list ScoredRecord) : nat :=
  length (List.filter (fun x => negb (in_content (matched x))) sd).

(** ** Reading the scorer's rule table *)

(** The points the scoring loop adds together with a recommendation. *)
Definition points_of (recommendation : string) : Z :=
  if String.eqb recommendation "Very close to top 3 - high priority" then 30
  else if String.eqb recommendation "On page 1 - good opportunity" then 20
  else if String.eqb recommendation "On page 2 - worth optimizing" then 10
  else if String.eqb recommendation "Add keyword to title tag" then 15
  else if String.eqb recommendation "Add keyword to H1 tag" then 10
  else if String.eqb recommendation "Include keyword naturally in content" then 5
  else if String.eqb recommendation "High search volume keyword" then 10
  else 0.

Definition is_band (recommendation : string) : bool :=
  String.eqb recommendation "Very close to top 3 - high priority"
  || String.eqb recommendation "On page 1 - good opportunity"
  || String.eqb recommendation "On page 2 - worth optimizing".

Definition sum_Z (l : list Z) : Z := foldr Z.add 0 l.

(** The request for a URL went through and the page was parsed. *)
Definition fetched (world : string -> FetchOutcome) (u : string) : bool :=
  match world u with
  | Fetched _ _ _ => true
  | _ => false
  end.

(** ** Worked inputs for the page fetcher *)

Module Site.

(** A parsed page with untidy white space. *)
Definition parsed : Page.Parsed :=
  {| Page.title_tag := Some "  Trail Shoes Guide ";
     Page.h1_tags := [" Trail shoes "; "Road shoes"];
     Page.body := Some ("Trail   shoes" +:+ String Re.newline "  for  every runner ") |}.

Definition fetch (u : string) : Page.Response :=
  if String.eqb u "https://example.com/a" then Page.Ok parsed
  else Page.RequestException "404".

Definition page : PageContent :=
  {| pc_url := "https://example.com/a"; title := "Trail Shoes Guide";
     h1 := "Trail shoes Road shoes";
     content := "Trail shoes for every runner"; status := "success" |}.

End Site.

(** * Properties *)

(** ** Substring search *)

Lemma starts_with_spec (p s : string) :
  Str.starts_with p s = true <-> exists post : string, s = p +:+ post.
Proof.
  revert s. induction p as [|a p IH]; intros s; simpl.
  - split; [intros _; by exists s | done].
  - destruct s as [|b s].
    + split; [done | by intros [post ?]].
    + rewrite andb_true_iff, IH. split.
      * intros [Hab [post ->]]. apply Ascii.eqb_eq in Hab as ->. by exists post.
      * intros [post Hpost]. injection Hpost as -> ->.
        split; [apply Ascii.eqb_refl | by exists post].
Qed.

Lemma contains_spec (p s : string) :
  Str.contains p s = true <-> Str.substring_of p s.
Proof.
  unfold Str.substring_of. induction s as [|b s IH]; simpl.
  - rewrite orb_false_r, starts_with_spec. split.
    + intros [post Hpost]. by exists EmptyString, post.
    + intros [[|c pre] [post Hpost]]; [by exists post | done].
  - rewrite orb_true_iff, starts_with_spec, IH. split.
    + intros [[post Hpost] | (pre & post & ->)].
      * by exists EmptyString, post.
      * by exists (String b pre), post.
    + intros [[|c pre] [post Hpost]].
      * left. by exists post.
      * right. injection Hpost as -> ->. by exists pre, post.
Qed.

Lemma is_empty_spec (s : string) : Str.is_empty s = true <-> s = EmptyString.
Proof. by destruct s. Qed.

(** ** KeywordMatcher *)

(** C8: the presence check is a total boolean function; it answers true
    exactly when neither the keyword nor the text is empty and the
    lower-cased keyword occurs in the lower-cased text as a substring (so
    it answers false whenever one of the two is empty). *)
Theorem check_keyword_presence_spec (keyword text : string) :
  check_keyword_presence keyword text = true <->
  keyword <> EmptyString /\ text <> EmptyString /\
  Str.substring_of (Str.lower keyword) (Str.lower text).
Proof.
  unfold check_keyword_presence.
  destruct text as [|c text]; [simpl; intuition congruence|].
  destruct keyword as [|k keyword]; [simpl; intuition congruence|].
  cbn [Str.is_empty orb]. rewrite contains_spec. intuition congruence.
Qed.

Example check_keyword_presence_run :
  check_keyword_presence "Running Shoes" "Best RUNNING shoes 2024" = true /\
  check_keyword_presence "running shoes" "" = false /\
  check_keyword_presence "" "Best running shoes" = false /\
  check_keyword_presence "trail" "Best running shoes" = false.
Proof. by vm_compute. Qed.

(** ** OpportunityScorer *)

(** C4: scenario 1 of the specification.  Position 4, keyword missing from
    title and heading, present in the content, 1200 impressions: the score
    is 65 = 30 + 15 + 10 + 10 and the four recommendations come in rule
    order; the row built for the record carries that score and the
    recommendations joined by " | ". *)
Theorem score_scenario_1 :
  score_rules 4 false false true 1200 =
    (30 + 15 + 10 + 10,
     ["Very close to top 3 - high priority"; "Add keyword to title tag";
      "Add keyword to H1 tag"; "High search volume keyword"]) /\
  o_score (opportunity_of true Ex.p1_matched) = 65 /\
  o_recommendations (opportunity_of true Ex.p1_matched) =
    "Very close to top 3 - high priority | Add keyword to title tag | Add keyword to H1 tag | High search volume keyword".
Proof. repeat split. Qed.

Lemma score_rules_value (position : Z) (t h c : bool) (impressions : Z) :
  fst (score_rules position t h c impressions) =
    (if (3 <=? position) && (position <=? 5) then 30
     else if (6 <=? position) && (position <=? 10) then 20
     else if (11 <=? position) && (position <=? 20) then 10 else 0)
    + (if t then 0 else 15) + (if h then 0 else 10) + (if c then 0 else 5)
    + (if 1000 <? impressions then 10 else 0).
Proof.
  unfold score_rules.
  destruct ((3 <=? position) && (position <=? 5)),
           ((6 <=? position) && (position <=? 10)),
           ((11 <=? position) && (position <=? 20)),
           t, h, c, (1000 <? impressions); reflexivity.
Qed.

(** C7: turning one presence signal from true to false, the other inputs
    being the same, never lowers the score. *)
Theorem score_monotone (position : Z) (t h c : bool) (impressions : Z) :
  fst (score_rules position true h c impressions)
    <= fst (score_rules position false h c impressions) /\
  fst (score_rules position t true c impressions)
    <= fst (score_rules position t false c impressions) /\
  fst (score_rules position t h true impressions)
    <= fst (score_rules position t h false impressions).
Proof.
  rewrite !score_rules_value. destruct t, h, c; lia.
Qed.

Lemma opportunity_of_score (has_impressions : bool) (row : MatchedRecord) :
  o_score (opportunity_of has_impressions row) =
  fst (score_rules (position (base row)) (in_title row) (in_h1 row) (in_content row)
                   (row_get_impressions has_impressions (base row))).
Proof. unfold opportunity_of. by destruct (score_rules _ _ _ _ _). Qed.

(** ** FilterPipeline *)

Lemma filter_split {A : Type} (f : A -> bool) (l : list A) :
  List.filter f l ++ List.filter (fun x => negb (f x)) l ≡ₚ l.
Proof.
  induction l as [|x l IH]; simpl; [done|].
  destruct (f x); simpl.
  - by constructor.
  - rewrite <- Permutation_middle. by constructor.
Qed.

(** One pass of the blocklist loop only moves rows from [filtered_df] to
    [blocklist_removed]. *)
Lemma apply_blocklist_moves (str_contains : string -> option (string -> bool))
    (blocklist : list string) :
  forall filtered_df removed_so_far filtered removed : list KeywordRecord,
    apply_blocklist_with str_contains blocklist filtered_df removed_so_far
      = Some (filtered, removed) ->
    filtered ++ removed ≡ₚ filtered_df ++ removed_so_far.
Proof.
  induction blocklist as [|term blocklist IH]; intros f rem f' rem' Hrun; simpl in Hrun.
  - by injection Hrun as <- <-.
  - destruct (str_contains term) as [test|]; [|done].
    apply IH in Hrun. rewrite Hrun.
    rewrite (Permutation_app_comm rem), app_assoc.
    rewrite (Permutation_app_comm (List.filter _ f)), filter_split.
    done.
Qed.

Lemma apply_blocklist_total (blocklist : list string) :
  Forall (fun term => is_Some (Re.re_compile term)) blocklist ->
  forall filtered_df removed_so_far : list KeywordRecord,
    is_Some (apply_blocklist blocklist filtered_df removed_so_far).
Proof.
  unfold apply_blocklist.
  induction 1 as [|term blocklist [re Hre] _ IH]; intros f rem; simpl.
  - by eexists.
  - unfold Re.str_contains at 1. rewrite Hre. apply IH.
Qed.

(** The report's filter stage answers whenever every blocklist term is a
    pattern of the modelled fragment. *)
Lemma filter_keywords_total (s : Settings) (df : DataFrame) :
  Forall (fun term => is_Some (Re.re_compile term)) (parse_blocklist (blocklist_input s)) ->
  is_Some (filter_keywords s df).
Proof.
  intros H. unfold filter_keywords, filter_keywords_with.
  destruct (Str.is_empty _); [by eexists | by apply apply_blocklist_total].
Qed.

Lemma filter_keywords_moves (str_contains : string -> option (string -> bool))
    (s : Settings) (df : DataFrame) (filtered removed : list KeywordRecord) :
  filter_keywords_with str_contains s df = Some (filtered, removed) ->
  filtered ++ removed ≡ₚ
    impressions_filter (has_impressions df) (min_impressions s)
      (position_filter (position_range s) (rows df)).
Proof.
  unfold filter_keywords_with. destruct (Str.is_empty _).
  - intros [= <- <-]. by rewrite app_nil_r.
  - intros H%apply_blocklist_moves. by rewrite app_nil_r in H.
Qed.

Lemma position_filter_In (range : Z * Z) (df : list KeywordRecord) (r : KeywordRecord) :
  In r (position_filter range df) <->
  In r df /\ fst range <= position r <= snd range.
Proof.
  unfold position_filter. rewrite filter_In, andb_true_iff, !Z.leb_le. tauto.
Qed.

Lemma impressions_filter_In (has : bool) (least : Z) (df : list KeywordRecord)
    (r : KeywordRecord) :
  In r (impressions_filter has least df) <->
  In r df /\ (has = true -> least <= impressions r).
Proof.
  unfold impressions_filter. destruct has.
  - rewrite filter_In, Z.leb_le. tauto.
  - split; [intros ?; split; [done | discriminate] | tauto].
Qed.

(** C5: the blocklist works on the frame left by the position filter and
    then (when the column exists) the impressions filter: the rows it
    removes and the rows it keeps are together exactly that frame, so
    every row of [blocklist_removed] has its position in the range and,
    when impressions are present, at least the minimum of impressions.
    This holds whatever test [str.contains] applies for a term. *)
Theorem blocklist_removed_already_filtered
    (str_contains : string -> option (string -> bool))
    (s : Settings) (df : DataFrame) (filtered removed : list KeywordRecord) :
  filter_keywords_with str_contains s df = Some (filtered, removed) ->
  filtered ++ removed ≡ₚ
    impressions_filter (has_impressions df) (min_impressions s)
      (position_filter (position_range s) (rows df)) /\
  Forall (fun r => fst (position_range s) <= position r <= snd (position_range s) /\
                   (has_impressions df = true -> min_impressions s <= impressions r))
         removed.
Proof.
  intros Hrun. pose proof (filter_keywords_moves _ _ _ _ _ Hrun) as Hperm.
  split; [done|]. apply List.Forall_forall. intros r Hr.
  assert (In r (filtered ++ removed)) as Hin by (apply in_or_app; by right).
  apply (Permutation_in _ Hperm) in Hin.
  apply impressions_filter_In in Hin as [Hin Himp].
  apply position_filter_In in Hin as [_ Hpos]. done.
Qed.

(** An instance: a row in range is removed by the blocklist, a row out of
    range never reaches it. *)
Lemma blocklist_removed_already_filtered_witness :
  filter_keywords Ex.plain_settings Ex.mixed_frame = Some ([Ex.road 6], [Ex.near_me]) /\
  ([Ex.road 6] ++ [Ex.near_me] ≡ₚ
     impressions_filter true 10 (position_filter (3, 20) (rows Ex.mixed_frame)) /\
   Forall (fun r => 3 <= position r <= 20 /\ (true = true -> 10 <= impressions r))
          [Ex.near_me]).
Proof.
  assert (filter_keywords Ex.plain_settings Ex.mixed_frame
          = Some ([Ex.road 6], [Ex.near_me])) as Hrun by reflexivity.
  split; [exact Hrun|].
  exact (blocklist_removed_already_filtered Re.str_contains
           Ex.plain_settings Ex.mixed_frame _ _ Hrun).
Defined.

(** *** Blocklist terms as patterns *)

Lemma literal_cons (c : ascii) (pat : string) :
  Re.literal (String c pat) = true ->
  Re.atom_of c = Some (Re.Lit c) /\ Re.literal pat = true.
Proof.
  unfold Re.literal. simpl. rewrite andb_true_iff, negb_true_iff, !orb_false_iff.
  intros [(((Hu & Hdot) & Hbol) & Heol) Hrest]. split; [|done].
  unfold Re.atom_of. by rewrite Hu, Hdot, Hbol, Heol.
Qed.

Lemma re_compile_literal (pat : string) :
  Re.literal pat = true -> Re.re_compile pat = Some (literal_atoms pat).
Proof.
  induction pat as [|c pat IH]; [done|].
  intros [Hc Hpat]%literal_cons. simpl. by rewrite Hc, (IH Hpat).
Qed.

Lemma match_here_literal (pat s : string) (at_start : bool) :
  Re.match_here at_start (literal_atoms pat) s = Str.starts_with pat s.
Proof.
  revert s at_start. induction pat as [|c pat IH]; intros s at_start; [done|].
  destruct s as [|d s]; [done|]. simpl. by rewrite IH.
Qed.

Lemma search_from_literal (pat s : string) (at_start : bool) :
  Re.search_from at_start (literal_atoms pat) s = Str.contains pat s.
Proof.
  revert at_start. induction s as [|d s IH]; intros at_start; simpl.
  - by rewrite match_here_literal.
  - by rewrite match_here_literal, IH.
Qed.

(** On a term without metacharacters the pattern search is the substring
    test. *)
Lemma str_contains_literal (term : string) :
  Re.literal term = true ->
  Re.str_contains term = Some (Re.re_search (literal_atoms term)).
Proof. intros Hterm. unfold Re.str_contains. by rewrite re_compile_literal. Qed.

Lemma keyword_hit_literal (term : string) (r : KeywordRecord) :
  keyword_hit (Re.re_search (literal_atoms term)) r
  = Str.contains term (Str.lower (keyword r)).
Proof. apply search_from_literal. Qed.

Lemma filter_filter_andb {A : Type} (f g : A -> bool) (l : list A) :
  List.filter g (List.filter f l) = List.filter (fun x => f x && g x) l.
Proof.
  induction l as [|x l IH]; simpl; [done|].
  destruct (f x); simpl; [destruct (g x); by rewrite IH | done].
Qed.

Lemma apply_blocklist_literal (blocklist : list string) :
  Forall (fun term => Re.literal term = true) blocklist ->
  forall filtered_df removed_so_far : list KeywordRecord,
    apply_blocklist blocklist filtered_df removed_so_far =
    Some (List.filter (fun r => negb (blocked blocklist r)) filtered_df,
          removed_so_far ++ removed_by blocklist filtered_df).
Proof.
  unfold apply_blocklist.
  induction 1 as [|term blocklist Hterm _ IH]; intros f rem; simpl.
  - rewrite app_nil_r. f_equal. f_equal. induction f; simpl; congruence.
  - rewrite (str_contains_literal _ Hterm).
    rewrite (List.filter_ext _ _ (keyword_hit_literal term)).
    rewrite (List.filter_ext
               (fun r => negb (keyword_hit (Re.re_search (literal_atoms term)) r))
               (fun r => negb (Str.contains term (Str.lower (keyword r))))).
    2:{ intros r. by rewrite keyword_hit_literal. }
    rewrite IH, filter_filter_andb, <- app_assoc. f_equal. f_equal.
    apply List.filter_ext. intros r. by rewrite negb_orb.
Qed.

Lemma filter_orb_split {A : Type} (f g : A -> bool) (l : list A) :
  List.filter f l ++ List.filter (fun x => negb (f x) && g x) l
  ≡ₚ List.filter (fun x => f x || g x) l.
Proof.
  induction l as [|x l IH]; simpl; [done|].
  destruct (f x); simpl.
  - by constructor.
  - destruct (g x); [|done]. rewrite <- Permutation_middle. by constructor.
Qed.

(** Every row with a blocked keyword is removed once, whatever the number
    of terms its keyword contains. *)
Lemma removed_by_count (blocklist : list string) (filtered_df : list KeywordRecord) :
  removed_by blocklist filtered_df ≡ₚ List.filter (blocked blocklist) filtered_df.
Proof.
  revert filtered_df. induction blocklist as [|term blocklist IH]; intros f; simpl.
  - induction f; simpl; done.
  - rewrite IH, filter_filter_andb. apply filter_orb_split.
Qed.

Lemma flat_map_map {A B C : Type} (f : B -> list C) (g : A -> B) (l : list A) :
  flat_map f (List.map g l) = flat_map (fun x => f (g x)) l.
Proof. induction l as [|x l IH]; simpl; [done | by rewrite IH]. Qed.

(** Rows are removed by the first term that matches them: the removed
    collection lists, term after term, the rows whose first matching term
    it is. *)
Lemma removed_by_first_hit (blocklist : list string) (filtered_df : list KeywordRecord) :
  removed_by blocklist filtered_df =
  flat_map (fun i => List.filter (fun r => bool_decide (first_hit blocklist r = Some i))
                       filtered_df)
           (seq 0 (length blocklist)).
Proof.
  revert filtered_df. induction blocklist as [|term blocklist IH]; intros f; [done|].
  cbn [removed_by length seq flat_map]. f_equal.
  - apply List.filter_ext. intros r. simpl.
    destruct (Str.contains term _); [done|].
    by destruct (first_hit blocklist r).
  - rewrite IH, <- seq_shift, flat_map_map.
    apply flat_map_ext. intros i. rewrite filter_filter_andb.
    apply List.filter_ext. intros r. simpl.
    destruct (Str.contains term _); simpl.
    + done.
    + destruct (first_hit blocklist r) as [j|]; simpl; [|done].
      apply bool_decide_ext. split; congruence.
Qed.

Lemma parse_blocklist_empty : parse_blocklist EmptyString = [].
Proof. reflexivity. Qed.

(** With a blocklist of plain terms (no regular-expression
    metacharacter), the filter stage keeps the rows whose keyword contains
    no term and records each other row once, under the first term that
    matches it. *)
Lemma filter_keywords_literal (s : Settings) (df : DataFrame) :
  let blocklist := parse_blocklist (blocklist_input s) in
  let before := impressions_filter (has_impressions df) (min_impressions s)
                  (position_filter (position_range s) (rows df)) in
  Forall (fun term => Re.literal term = true) blocklist ->
  exists filtered removed : list KeywordRecord,
    filter_keywords s df = Some (filtered, removed) /\
    filtered = List.filter (fun r => negb (blocked blocklist r)) before /\
    removed ≡ₚ List.filter (blocked blocklist) before /\
    removed = flat_map (fun i => List.filter
                                   (fun r => bool_decide (first_hit blocklist r = Some i))
                                   before)
                       (seq 0 (length blocklist)).
Proof.
  intros blocklist before Hlit.
  exists (List.filter (fun r => negb (blocked blocklist r)) before),
         (removed_by blocklist before).
  split; [|split; [done | split; [apply removed_by_count | apply removed_by_first_hit]]].
  unfold filter_keywords, filter_keywords_with. fold before.
  destruct (Str.is_empty (blocklist_input s)) eqn:Hempty.
  - apply is_empty_spec in Hempty. subst blocklist. rewrite Hempty, parse_blocklist_empty.
    simpl. f_equal. f_equal. induction before; simpl; congruence.
  - fold blocklist. fold apply_blocklist. by rewrite (apply_blocklist_literal _ Hlit).
Qed.

(** C3, on the input where the code departs from it: the keyword
    "shoes from $50 to $100" contains both blocklist terms "$50" and
    "$100" as substrings, yet the filter stage removes nothing, because
    the terms are searched as regular expressions in which [$] is the
    end-of-string anchor. *)
Theorem blocklist_price_terms_kept :
  parse_blocklist Ex.price_blocklist = ["$50"; "$100"] /\
  Forall (fun term => Str.substring_of term (Str.lower (keyword Ex.priced)))
         ["$50"; "$100"] /\
  filter_keywords Ex.price_settings Ex.price_frame = Some ([Ex.priced], []).
Proof.
  split; [reflexivity|]. split; [|reflexivity].
  repeat constructor; by apply contains_spec.
Qed.

(** ** The crawl coordinator *)

Lemma collect_entry (world : string -> FetchOutcome)
    (crawl_results : gmap string PageContent) (url : string) :
  collect world crawl_results url = <[url := entry_of world url]> crawl_results.
Proof. unfold collect, entry_of. by destruct (crawl_url world url). Qed.

Lemma foldl_collect_lookup (world : string -> FetchOutcome) (completed : list string) :
  forall (crawl_results : gmap string PageContent) (u : string),
    foldl (collect world) crawl_results completed !! u =
    if decide (u ∈ completed) then Some (entry_of world u) else crawl_results !! u.
Proof.
  induction completed as [|url completed IH]; intros m u; cbn [foldl].
  - destruct (decide (u ∈ [])) as [Hin|_]; [by apply elem_of_nil in Hin | done].
  - rewrite IH, collect_entry.
    destruct (decide (u ∈ completed)) as [Hin|Hout],
             (decide (u ∈ url :: completed)) as [Hin'|Hout']; try done.
    + destruct Hout'. by right.
    + apply elem_of_cons in Hin' as [->|?]; [apply lookup_insert_eq | done].
    + apply lookup_insert_ne. intros ->. apply Hout'. by left.
Qed.

(** What the finished dictionary holds for a URL. *)
Lemma crawl_all_lookup (world : string -> FetchOutcome) (completed : list string)
    (u : string) :
  crawl_all world completed !! u =
  if decide (u ∈ completed) then Some (entry_of world u) else None.
Proof. unfold crawl_all. rewrite foldl_collect_lookup. by rewrite lookup_empty. Qed.

Lemma crawl_all_dom (world : string -> FetchOutcome) (completed : list string) :
  dom (crawl_all world completed) = list_to_set completed.
Proof.
  apply set_eq. intros u.
  rewrite elem_of_dom, crawl_all_lookup, elem_of_list_to_set.
  destruct (decide (u ∈ completed)); split; try done; by intros [? ?].
Qed.

(** C6: for pairwise distinct requested URLs, whatever the order in which
    the fetches complete, the dictionary built by the coordinator has the
    requested URLs as its keys, one entry for each, and it is the same
    dictionary for every completion order; the entry of a URL whose fetch
    raised an exception that [crawl_url] does not handle is the Failure
    page carrying the exception's message. *)
Theorem crawl_all_covers (world : string -> FetchOutcome) (urls completed : list string) :
  NoDup urls ->
  completed ≡ₚ urls ->
  dom (crawl_all world completed) = list_to_set urls /\
  size (crawl_all world completed) = length urls /\
  (forall u : string, u ∈ urls ->
     crawl_all world completed !! u = Some (entry_of world u) /\
     pc_url (entry_of world u) = u) /\
  (forall u e : string, u ∈ urls -> crawl_url world u = inr e ->
     crawl_all world completed !! u = Some (failure_page u e)) /\
  crawl_all world completed = crawl_all world urls.
Proof.
  intros Hnodup Hperm.
  assert (forall u, crawl_all world completed !! u = crawl_all world urls !! u) as Hsame.
  { intros u. rewrite !crawl_all_lookup.
    destruct (decide (u ∈ completed)) as [Hin|Hout].
    - rewrite decide_True; [done | by rewrite <- Hperm].
    - rewrite decide_False; [done | by rewrite <- Hperm]. }
  assert (forall u, u ∈ urls -> crawl_all world completed !! u = Some (entry_of world u))
    as Hentry.
  { intros u Hu. rewrite Hsame, crawl_all_lookup. by rewrite decide_True. }
  split; [|split; [|split; [|split]]].
  - rewrite crawl_all_dom. apply set_eq. intros u.
    by rewrite !elem_of_list_to_set, Hperm.
  - rewrite <- size_dom, crawl_all_dom, size_list_to_set.
    + by rewrite Hperm.
    + by rewrite Hperm.
  - intros u Hu. split; [by apply Hentry|].
    unfold entry_of, crawl_url. by destruct (world u).
  - intros u e Hu Hraise. rewrite (Hentry u Hu). unfold entry_of. by rewrite Hraise.
  - by apply map_eq.
Qed.

(** Three URLs completing out of order: one fetched, one handled request
    error, one crash. *)
Lemma crawl_all_covers_witness :
  let urls := ["https://example.com/a"; "https://example.com/b"; "https://example.com/c"] in
  let completed := ["https://example.com/c"; "https://example.com/a"; "https://example.com/b"] in
  NoDup urls /\ completed ≡ₚ urls /\
  (dom (crawl_all Ex.flaky completed) = list_to_set urls /\
   size (crawl_all Ex.flaky completed) = length urls /\
   (forall u : string, u ∈ urls ->
      crawl_all Ex.flaky completed !! u = Some (entry_of Ex.flaky u) /\
      pc_url (entry_of Ex.flaky u) = u) /\
   (forall u e : string, u ∈ urls -> crawl_url Ex.flaky u = inr e ->
      crawl_all Ex.flaky completed !! u = Some (failure_page u e)) /\
   crawl_all Ex.flaky completed = crawl_all Ex.flaky urls).
Proof.
  intros urls completed.
  assert (NoDup urls) as Hnodup by (apply (bool_decide_unpack _); vm_compute; exact I).
  assert (completed ≡ₚ urls) as Hperm
    by exact (Permutation_cons_append ["https://example.com/a"; "https://example.com/b"]
                                      "https://example.com/c").
  split; [exact Hnodup|]. split; [exact Hperm|].
  exact (crawl_all_covers Ex.flaky urls completed Hnodup Hperm).
Defined.

Example crawl_all_crash_entry :
  crawl_all Ex.flaky ["https://example.com/c"; "https://example.com/a"]
    !! "https://example.com/c"
  = Some {| pc_url := "https://example.com/c"; title := ""; h1 := ""; content := "";
            status := "error: boom" |}.
Proof. by rewrite crawl_all_lookup. Qed.

(** ** Sorting a frame *)

Lemma omap_fmap_S {A : Type} (g : nat -> option A) (l : list nat) :
  omap g (S <$> l) = omap (fun j => g (S j)) l.
Proof. induction l as [|j l IH]; csimpl; [done | by rewrite IH]. Qed.

Lemma omap_lookup_seq {A B : Type} (f : A -> B) (l : list A) :
  omap (fun j => f <$> l !! j) (seq 0 (length l)) = f <$> l.
Proof.
  induction l as [|x l IH]; [done|].
  cbn [length seq]. rewrite <- fmap_S_seq. csimpl. f_equal.
  rewrite omap_fmap_S. exact IH.
Qed.

(** Taking the rows through an indexer that permutes the row numbers
    permutes the rows. *)
Lemma take_rows_perm {A : Type} (indexer : list nat) (df : list A) :
  indexer ≡ₚ seq 0 (length df) -> take_rows indexer df ≡ₚ df.
Proof.
  intros Hperm. unfold take_rows. rewrite Hperm.
  rewrite <- (list_fmap_id df) at 2. rewrite <- (omap_lookup_seq id df).
  apply Permutation_refl'. apply list_omap_ext. clear Hperm.
  induction (seq 0 (length df)) as [|j js IH]; [constructor|].
  constructor; [by destruct (df !! j) | done].
Qed.

Lemma split_nan_perm (l : list (nat * option Z)) :
  (omap (fun p : nat * option Z => (fun k => (fst p, k)) <$> snd p) l).*1 ++
  omap (fun p : nat * option Z =>
          match snd p with None => Some (fst p) | Some _ => None end) l
  ≡ₚ l.*1.
Proof.
  induction l as [|[i [k|]] l IH]; csimpl; [done | by constructor |].
  rewrite <- Permutation_middle. by constructor.
Qed.

Lemma non_nan_nan_idx_perm (items : list (option Z)) :
  (non_nan items).*1 ++ nan_idx items ≡ₚ seq 0 (length items).
Proof.
  unfold non_nan, nan_idx. rewrite split_nan_perm, fst_zip; [done|].
  by rewrite length_seq.
Qed.

Section SortValues.
Variable argsort : list Z -> list nat.
Hypothesis argsort_perm : argsort_permutes argsort.

Lemma argsort_through_perm (pairs : list (nat * Z)) :
  omap (fun j => fst <$> pairs !! j) (argsort (List.map snd pairs)) ≡ₚ pairs.*1.
Proof.
  rewrite (argsort_perm (List.map snd pairs)), length_map.
  by rewrite omap_lookup_seq.
Qed.

Lemma nargsort_perm (items : list (option Z)) (ascending : bool) :
  nargsort argsort items ascending ≡ₚ seq 0 (length items).
Proof.
  unfold nargsort. rewrite <- non_nan_nan_idx_perm. apply Permutation_app; [|done].
  destruct ascending.
  - apply argsort_through_perm.
  - rewrite reverse_Permutation, argsort_through_perm.
    by rewrite fmap_reverse, reverse_Permutation.
Qed.

(** [sort_values] keeps the rows of the frame, each as often as it was
    there. *)
Lemma sort_values_perm {A : Type} (by_ : A -> option Z) (ascending : bool) (df : list A) :
  sort_values argsort by_ ascending df ≡ₚ df.
Proof.
  unfold sort_values. apply take_rows_perm.
  by rewrite nargsort_perm, length_map.
Qed.

End SortValues.

(** ** ResultCategorizer *)

Lemma check_row_inl (crawl_results : gmap string PageContent) (r : KeywordRecord)
    (m : MatchedRecord) :
  check_row crawl_results r = inl m ->
  base m = r /\
  bucket_of crawl_results r = if all_present m then FullyOptimized else StrikingDistance.
Proof.
  unfold check_row, bucket_of, all_present.
  destruct (crawl_results !! url r) as [page|]; [|done].
  destruct (String.eqb (status page) "success"); [|done].
  intros [= <-]. simpl. split; [done|].
  by destruct (check_keyword_presence _ _ && _ && _).
Qed.

Lemma check_row_inr (crawl_results : gmap string PageContent) (r : KeywordRecord)
    (missing : NotFoundRow) :
  check_row crawl_results r = inr missing ->
  missing = not_found_row r /\ bucket_of crawl_results r = NotFound.
Proof.
  unfold check_row, bucket_of, not_found_row.
  destruct (crawl_results !! url r) as [page|]; [|by intros [= <-]].
  destruct (String.eqb (status page) "success"); [done | by intros [= <-]].
Qed.

Lemma check_keywords_cons (crawl_results : gmap string PageContent)
    (r : KeywordRecord) (rest : list KeywordRecord) :
  check_keywords crawl_results (r :: rest) =
  match check_row crawl_results r with
  | inl m => (m :: (check_keywords crawl_results rest).1, (check_keywords crawl_results rest).2)
  | inr missing => ((check_keywords crawl_results rest).1,
                    missing :: (check_keywords crawl_results rest).2)
  end.
Proof. simpl. by destruct (check_keywords crawl_results rest), (check_row crawl_results r). Qed.

Lemma urls_not_found_bucket (crawl_results : gmap string PageContent)
    (filtered_df : list KeywordRecord) :
  (check_keywords crawl_results filtered_df).2 =
  not_found_row <$> in_bucket crawl_results NotFound filtered_df.
Proof.
  induction filtered_df as [|r rest IH]; [done|].
  rewrite check_keywords_cons. unfold in_bucket in *. cbn [List.filter].
  destruct (check_row crawl_results r) as [m|missing] eqn:Hrow.
  - apply check_row_inl in Hrow as [_ ->]. cbn [snd]. rewrite IH. by destruct (all_present m).
  - apply check_row_inr in Hrow as [-> ->]. cbn [snd bucket_eqb]. by rewrite IH.
Qed.

Lemma results_bucket (crawl_results : gmap string PageContent)
    (filtered_df : list KeywordRecord) (wanted : bool) :
  base <$> List.filter (fun m => Bool.eqb (all_present m) wanted)
             (check_keywords crawl_results filtered_df).1 =
  in_bucket crawl_results (if wanted then FullyOptimized else StrikingDistance) filtered_df.
Proof.
  induction filtered_df as [|r rest IH]; [done|].
  rewrite check_keywords_cons. unfold in_bucket in *. cbn [List.filter].
  destruct (check_row crawl_results r) as [m|missing] eqn:Hrow.
  - apply check_row_inl in Hrow as [<- ->]. cbn [fst List.filter].
    destruct (all_present m), wanted; cbn [Bool.eqb bucket_eqb]; by rewrite <- IH.
  - apply check_row_inr in Hrow as [_ ->]. cbn [fst]. rewrite IH. by destruct wanted.
Qed.

Lemma filter_guard {A : Type} (f : A -> bool) (l : list A) :
  (if (0 <? length l)%nat then List.filter f l else []) = List.filter f l.
Proof. by destruct l. Qed.

Lemma all_checks_passed_of_eq (results : list MatchedRecord) :
  all_checks_passed_of results =
  List.filter (fun m => Bool.eqb (all_present m) true) results.
Proof.
  unfold all_checks_passed_of. rewrite filter_guard. apply List.filter_ext.
  intros m. unfold all_present. by destruct (in_title m), (in_h1 m), (in_content m).
Qed.

Lemma striking_distance_of_perm (argsort : list Z -> list nat) (results : list MatchedRecord) :
  argsort_permutes argsort ->
  striking_distance_of argsort results ≡ₚ
  List.filter (fun m => Bool.eqb (all_present m) false) results.
Proof.
  intros Hperm. unfold striking_distance_of.
  destruct (0 <? length results)%nat eqn:Hlen.
  - rewrite sort_values_perm by done.
    apply Permutation_refl'. apply List.filter_ext.
    intros x. unfold all_present. by destruct (in_title x), (in_h1 x), (in_content x).
  - by destruct results.
Qed.

(** The three buckets of the specification split any frame. *)
Lemma in_bucket_split (crawl_results : gmap string PageContent)
    (filtered_df : list KeywordRecord) :
  in_bucket crawl_results FullyOptimized filtered_df ++
  in_bucket crawl_results StrikingDistance filtered_df ++
  in_bucket crawl_results NotFound filtered_df ≡ₚ filtered_df.
Proof.
  unfold in_bucket. induction filtered_df as [|r rest IH]; [done|]. simpl.
  destruct (bucket_of crawl_results r); simpl.
  - by constructor.
  - rewrite <- Permutation_middle. by constructor.
  - rewrite app_assoc, <- Permutation_middle, <- app_assoc. by constructor.
Qed.

(** C1: the categorisation of a filtered frame against a crawl map puts
    every record in exactly one bucket.  The fully-optimized rows are the
    records whose URL was fetched with success and whose three signals
    hold, the striking-distance rows the fetched ones with a signal
    missing (in some order), the not-found rows the records whose URL is
    absent from the map or not fetched with success; the three buckets
    together are the filtered frame, each record counted as often as it
    occurs there. *)
Theorem buckets_partition (argsort : list Z -> list nat)
    (crawl_results : gmap string PageContent) (filtered_df : list KeywordRecord) :
  argsort_permutes argsort ->
  base <$> all_checks_passed_of (check_keywords crawl_results filtered_df).1
    = in_bucket crawl_results FullyOptimized filtered_df /\
  base <$> striking_distance_of argsort (check_keywords crawl_results filtered_df).1
    ≡ₚ in_bucket crawl_results StrikingDistance filtered_df /\
  (check_keywords crawl_results filtered_df).2
    = not_found_row <$> in_bucket crawl_results NotFound filtered_df /\
  Forall (fun m => all_present m = true)
    (all_checks_passed_of (check_keywords crawl_results filtered_df).1) /\
  Forall (fun m => all_present m = false)
    (striking_distance_of argsort (check_keywords crawl_results filtered_df).1) /\
  in_bucket crawl_results FullyOptimized filtered_df ++
  in_bucket crawl_results StrikingDistance filtered_df ++
  in_bucket crawl_results NotFound filtered_df ≡ₚ filtered_df.
Proof.
  intros Hperm. repeat split.
  - rewrite all_checks_passed_of_eq. apply (results_bucket _ _ true).
  - rewrite striking_distance_of_perm by done. by rewrite (results_bucket _ _ false).
  - apply urls_not_found_bucket.
  - rewrite all_checks_passed_of_eq. apply List.Forall_forall.
    intros m [_ Hm]%filter_In. by destruct (all_present m).
  - rewrite striking_distance_of_perm by done. apply List.Forall_forall.
    intros m [_ Hm]%filter_In. by destruct (all_present m).
  - apply in_bucket_split.
Qed.

(** *** The reference [argsort] meets the requirements *)

Lemma insert_by_key_perm (p : nat * Z) (l : list (nat * Z)) :
  insert_by_key p l ≡ₚ p :: l.
Proof.
  induction l as [|q l IH]; simpl; [done|].
  destruct (snd p <=? snd q); [done|]. rewrite IH. apply perm_swap.
Qed.

Lemma insertion_sort_perm (l : list (nat * Z)) : foldr insert_by_key [] l ≡ₚ l.
Proof.
  induction l as [|p l IH]; simpl; [done|]. by rewrite insert_by_key_perm, IH.
Qed.

Lemma insert_by_key_sorted (p : nat * Z) (l : list (nat * Z)) :
  Sorted (fun a b => snd a <= snd b) l ->
  Sorted (fun a b => snd a <= snd b) (insert_by_key p l).
Proof.
  induction 1 as [|q l Hsorted IH Hhd]; simpl; [by repeat constructor|].
  destruct (Z.leb_spec (snd p) (snd q)) as [Hle|Hgt].
  - by repeat constructor.
  - constructor; [done|].
    destruct Hhd as [|r l Hqr]; simpl.
    + constructor. simpl. lia.
    + destruct (snd p <=? snd r); constructor; simpl; lia.
Qed.

Lemma insertion_sort_sorted (l : list (nat * Z)) :
  Sorted (fun a b => snd a <= snd b) (foldr insert_by_key [] l).
Proof.
  induction l as [|p l IH]; simpl; [constructor | by apply insert_by_key_sorted].
Qed.

Lemma keys_through_pairs (ks : list Z) (pairs : list (nat * Z)) :
  Forall (fun p => ks !! fst p = Some (snd p)) pairs ->
  keys_through ks (List.map fst pairs) = List.map snd pairs.
Proof.
  unfold keys_through. induction 1 as [|p pairs Hp _ IH]; [done|].
  csimpl. cbn [List.map]. by rewrite Hp, IH.
Qed.

Lemma zip_seq_lookup (ks : list Z) :
  Forall (fun p : nat * Z => ks !! fst p = Some (snd p)) (zip (seq 0 (length ks)) ks).
Proof.
  apply Forall_forall. intros [i k] Hin.
  apply list_elem_of_lookup in Hin as [j Hj].
  apply lookup_zip_with_Some in Hj as (a & b & [= <- <-] & Ha & Hb).
  apply lookup_seq in Ha as [-> _]. done.
Qed.

Lemma insertion_argsort_permutes : argsort_permutes insertion_argsort.
Proof.
  intros ks. unfold insertion_argsort.
  change (List.map fst ?l) with (l.*1).
  rewrite insertion_sort_perm, fst_zip; [done | by rewrite length_seq].
Qed.

Lemma insertion_argsort_sorts : argsort_sorts insertion_argsort.
Proof.
  intros ks. unfold insertion_argsort. rewrite keys_through_pairs.
  - generalize (insertion_sort_sorted (zip (seq 0 (length ks)) ks)).
    generalize (foldr insert_by_key [] (zip (seq 0 (length ks)) ks)).
    induction 1 as [|p l _ IH Hhd]; simpl; constructor; [done|].
    destruct Hhd; simpl; by constructor.
  - rewrite insertion_sort_perm. apply zip_seq_lookup.
Qed.

(** A frame whose three records land in the three buckets. *)
Lemma buckets_partition_witness :
  argsort_permutes insertion_argsort /\
  (base <$> all_checks_passed_of (check_keywords Ex.crawled Ex.three_rows).1
     = in_bucket Ex.crawled FullyOptimized Ex.three_rows /\
   base <$> striking_distance_of insertion_argsort (check_keywords Ex.crawled Ex.three_rows).1
     ≡ₚ in_bucket Ex.crawled StrikingDistance Ex.three_rows /\
   (check_keywords Ex.crawled Ex.three_rows).2
     = not_found_row <$> in_bucket Ex.crawled NotFound Ex.three_rows /\
   Forall (fun m => all_present m = true)
     (all_checks_passed_of (check_keywords Ex.crawled Ex.three_rows).1) /\
   Forall (fun m => all_present m = false)
     (striking_distance_of insertion_argsort (check_keywords Ex.crawled Ex.three_rows).1) /\
   in_bucket Ex.crawled FullyOptimized Ex.three_rows ++
   in_bucket Ex.crawled StrikingDistance Ex.three_rows ++
   in_bucket Ex.crawled NotFound Ex.three_rows ≡ₚ Ex.three_rows).
Proof.
  split; [exact insertion_argsort_permutes|].
  exact (buckets_partition insertion_argsort Ex.crawled Ex.three_rows
           insertion_argsort_permutes).
Defined.

Example buckets_partition_run :
  in_bucket Ex.crawled FullyOptimized Ex.three_rows = [Ex.trail 4] /\
  in_bucket Ex.crawled StrikingDistance Ex.three_rows = [Ex.hike 8] /\
  in_bucket Ex.crawled NotFound Ex.three_rows = [Ex.road 6].
Proof. by vm_compute. Qed.

(** ** The URLs that are crawled *)

Lemma existsb_eqb_elem_of (x : string) (seen : list string) :
  existsb (String.eqb x) seen = true <-> x ∈ seen.
Proof.
  rewrite existsb_exists, list_elem_of_In. split.
  - by intros (y & Hy & ->%String.eqb_eq).
  - intros Hx. exists x. by rewrite String.eqb_refl.
Qed.

Lemma omap_ext_all {A B : Type} (f g : A -> option B) (l : list A) :
  (forall x, f x = g x) -> omap f l = omap g l.
Proof. intros Hfg. induction l as [|x l IH]; csimpl; [done | by rewrite Hfg, IH]. Qed.

Lemma unique_from_first (seen l : list string) :
  unique_from seen l =
  omap (fun i => x ← l !! i;
                 if bool_decide (x ∈ seen \/ x ∈ take i l) then None else Some x)
       (seq 0 (length l)).
Proof.
  revert seen. induction l as [|x l IH]; intros seen; [done|].
  cbn [length seq unique_from]. rewrite <- fmap_S_seq. csimpl.
  rewrite omap_fmap_S. cbn [lookup list_lookup take].
  destruct (existsb (String.eqb x) seen) eqn:Hseen.
  - apply existsb_eqb_elem_of in Hseen.
    rewrite bool_decide_true by (by left). rewrite IH. apply omap_ext_all.
    intros i. destruct (l !! i) as [y|]; [simpl|done].
    erewrite bool_decide_ext; [done|]. rewrite elem_of_cons. intuition congruence.
  - apply not_true_iff_false in Hseen. rewrite existsb_eqb_elem_of in Hseen.
    rewrite bool_decide_false by (intros [?|?%elem_of_nil]; done).
    f_equal. rewrite IH. apply omap_ext_all.
    intros i. destruct (l !! i) as [y|]; [simpl|done].
    erewrite bool_decide_ext; [done|]. rewrite !elem_of_cons. tauto.
Qed.

(** [unique] lists the values at the places where they occur for the
    first time, in the order of these places. *)
Lemma unique_first_appearance (l : list string) :
  unique l = first_appearances l.
Proof.
  unfold unique, first_appearances. rewrite unique_from_first. apply omap_ext_all.
  intros i. destruct (l !! i) as [y|]; [simpl|done].
  erewrite bool_decide_ext; [done|]. rewrite elem_of_nil. tauto.
Qed.

Lemma unique_from_elem_of (seen l : list string) (x : string) :
  x ∈ unique_from seen l <-> x ∈ l /\ x ∉ seen.
Proof.
  revert seen. induction l as [|y l IH]; intros seen; simpl.
  - rewrite elem_of_nil. tauto.
  - destruct (existsb (String.eqb y) seen) eqn:Hseen.
    + apply existsb_eqb_elem_of in Hseen. rewrite IH, elem_of_cons. intuition congruence.
    + apply not_true_iff_false in Hseen. rewrite existsb_eqb_elem_of in Hseen.
      rewrite !elem_of_cons, IH, elem_of_cons.
      destruct (decide (x = y)) as [->|Hne]; intuition congruence.
Qed.

Lemma unique_from_NoDup (seen l : list string) : NoDup (unique_from seen l).
Proof.
  revert seen. induction l as [|y l IH]; intros seen; simpl; [constructor|].
  destruct (existsb (String.eqb y) seen); [apply IH|].
  constructor; [|apply IH].
  rewrite unique_from_elem_of, elem_of_cons. tauto.
Qed.

Lemma unique_urls_NoDup (max_urls : nat) (filtered_df : list KeywordRecord) :
  NoDup (unique_urls_of max_urls filtered_df).
Proof.
  unfold unique_urls_of.
  eapply sublist_NoDup; [apply unique_from_NoDup | apply sublist_take].
Qed.

Lemma sample_all_lookup (unique_urls : list string) (u : string) :
  sample_all unique_urls !! u =
  if decide (u ∈ unique_urls) then Some (sample_content u) else None.
Proof.
  unfold sample_all.
  enough (forall m : gmap string PageContent,
            foldl (fun acc url => <[url := sample_content url]> acc) m unique_urls !! u =
            if decide (u ∈ unique_urls) then Some (sample_content u) else m !! u) as H
    by (by rewrite H, lookup_empty).
  induction unique_urls as [|url urls IH]; intros m; cbn [foldl].
  - destruct (decide (u ∈ [])) as [Hin|_]; [by apply elem_of_nil in Hin | done].
  - rewrite IH.
    destruct (decide (u ∈ urls)) as [Hin|Hout],
             (decide (u ∈ url :: urls)) as [Hin'|Hout']; try done.
    + destruct Hout'. by right.
    + apply elem_of_cons in Hin' as [->|?]; [apply lookup_insert_eq | done].
    + apply lookup_insert_ne. intros ->. apply Hout'. by left.
Qed.

(** In both crawl modes the dictionary has an entry for a URL exactly when
    the URL is among the [unique_urls]. *)
Lemma crawl_step_lookup (as_completed : list string -> list string)
    (opt : CrawlOption) (world : string -> FetchOutcome) (unique_urls : list string)
    (u : string) :
  completes_each_once as_completed ->
  is_Some (crawl_step as_completed opt world unique_urls !! u) <-> u ∈ unique_urls.
Proof.
  intros Hdone. destruct opt; simpl.
  - rewrite crawl_all_lookup.
    destruct (decide (u ∈ as_completed unique_urls)) as [Hin|Hout].
    + split; [intros _; by rewrite <- (Hdone unique_urls) | by eexists].
    + split; [by intros [? ?] | intros Hu; destruct Hout; by rewrite (Hdone unique_urls)].
  - rewrite sample_all_lookup.
    destruct (decide (u ∈ unique_urls)); split; try done; by intros [? ?].
Qed.

Lemma analyse_urls_not_found (argsort : list Z -> list nat)
    (as_completed : list string -> list string) (s : Settings)
    (world : string -> FetchOutcome) (has : bool) (filtered_df removed : list KeywordRecord) :
  urls_not_found (analyse argsort as_completed s world has filtered_df removed) =
  (check_keywords
     (crawl_step as_completed (crawl_option s) world
        (unique_urls_of (max_urls s) filtered_df)) filtered_df).2.
Proof. unfold analyse. by destruct (check_keywords _ _). Qed.

(** C10: when the filtered frame has more distinct URLs than [max_urls],
    exactly the first [max_urls] of them, in order of first appearance,
    get an entry in the crawl dictionary; every record whose URL is not
    among them lands in the not-found bucket, and the not-found frame of
    the report lists the (url, keyword) pairs of all those records, none
    lost, in frame order.  The report is built by a total function: no
    record makes it fail. *)
Theorem beyond_cap_not_found (argsort : list Z -> list nat)
    (as_completed : list string -> list string) (s : Settings)
    (world : string -> FetchOutcome) (has : bool) (filtered_df removed : list KeywordRecord) :
  completes_each_once as_completed ->
  (max_urls s < length (unique (List.map url filtered_df)))%nat ->
  let unique_urls := unique_urls_of (max_urls s) filtered_df in
  let crawl_results := crawl_step as_completed (crawl_option s) world unique_urls in
  unique_urls = take (max_urls s) (first_appearances (List.map url filtered_df)) /\
  length unique_urls = max_urls s /\
  dom crawl_results = list_to_set unique_urls /\
  (forall r : KeywordRecord, r ∈ filtered_df -> url r ∉ unique_urls ->
     bucket_of crawl_results r = NotFound /\
     not_found_row r ∈
       urls_not_found (analyse argsort as_completed s world has filtered_df removed)) /\
  urls_not_found (analyse argsort as_completed s world has filtered_df removed) =
    not_found_row <$> in_bucket crawl_results NotFound filtered_df.
Proof.
  intros Hdone Hmore unique_urls crawl_results.
  assert (urls_not_found (analyse argsort as_completed s world has filtered_df removed) =
          not_found_row <$> in_bucket crawl_results NotFound filtered_df) as Hnf.
  { rewrite analyse_urls_not_found. apply urls_not_found_bucket. }
  assert (forall r, url r ∉ unique_urls -> bucket_of crawl_results r = NotFound) as Hout.
  { intros r Hr. unfold bucket_of.
    destruct (crawl_results !! url r) as [page|] eqn:Hpage; [|done].
    destruct Hr. apply (crawl_step_lookup as_completed (crawl_option s) world); [done|].
    by eexists. }
  split; [|split; [|split; [|split; [|done]]]].
  - unfold unique_urls, unique_urls_of. by rewrite unique_first_appearance.
  - unfold unique_urls, unique_urls_of. rewrite length_take. lia.
  - apply set_eq. intros u. rewrite elem_of_dom, elem_of_list_to_set.
    by apply crawl_step_lookup.
  - intros r Hin Hr. split; [by apply Hout|].
    rewrite Hnf. apply list_elem_of_fmap_2. unfold in_bucket.
    apply list_elem_of_In, filter_In. split; [by apply list_elem_of_In|].
    by rewrite Hout.
Qed.

(** ** The order of the striking-distance frame *)

Lemma omap_reverse {A B : Type} (f : A -> option B) (l : list A) :
  omap f (reverse l) = reverse (omap f l).
Proof.
  induction l as [|x l IH]; [done|].
  rewrite reverse_cons, omap_app, IH. csimpl.
  destruct (f x); csimpl; [by rewrite reverse_cons | by rewrite app_nil_r].
Qed.

Lemma non_nan_all_present (start : nat) (scores : list Z) :
  omap (fun p : nat * option Z => (fun k => (fst p, k)) <$> snd p)
       (zip (seq start (length scores)) (Some <$> scores))
  = zip (seq start (length scores)) scores /\
  omap (fun p : nat * option Z =>
          match snd p with None => Some (fst p) | Some _ => None end)
       (zip (seq start (length scores)) (Some <$> scores)) = [].
Proof.
  revert start. induction scores as [|k scores IH]; intros start; [done|].
  destruct (IH (S start)) as [IH1 IH2]. csimpl. cbn [zip zip_with] in *. csimpl.
  by rewrite IH1, IH2.
Qed.

Lemma StronglySorted_lookup {A : Type} (R : relation A) (l : list A) (i j : nat) (x y : A) :
  StronglySorted R l -> (i < j)%nat -> l !! i = Some x -> l !! j = Some y -> R x y.
Proof.
  intros Hsorted. revert i j. induction Hsorted as [|a l _ IH Hall]; intros i j Hij Hi Hj.
  - done.
  - destruct j as [|j]; [lia|]. destruct i as [|i]; simpl in *.
    + injection Hi as <-. rewrite List.Forall_forall in Hall. apply Hall.
      apply list_elem_of_In. by eapply list_elem_of_lookup_2.
    + apply (IH i j); [lia | done | done].
Qed.

Section Descending.
Context {A : Type}.
Variable argsort : list Z -> list nat.
Hypothesis argsort_sorted : argsort_sorts argsort.
Variable by_ : A -> option Z.
Variable df : list A.

Lemma keys_of_taken (pairs : list (nat * Z)) (idx : list nat) :
  Forall (fun p => by_ <$> df !! fst p = Some (Some (snd p))) pairs ->
  by_ <$> take_rows (omap (fun j => fst <$> pairs !! j) idx) df
  = Some <$> keys_through (List.map snd pairs) idx.
Proof.
  intros Hpairs. unfold take_rows, keys_through.
  induction idx as [|j idx IH]; [done|]. csimpl.
  change (List.map snd pairs) with (snd <$> pairs). rewrite list_lookup_fmap.
  destruct (pairs !! j) as [[i k]|] eqn:Hj; csimpl; [|exact IH].
  rewrite Forall_forall in Hpairs.
  specialize (Hpairs (i, k) (list_elem_of_lookup_2 _ _ _ Hj)). simpl in Hpairs.
  destruct (df !! i) as [x|]; [|done]. injection Hpairs as Hx.
  csimpl. by rewrite Hx, IH.
Qed.

(** Sorting in descending order on a column without missing cells:
    the column of the result is the reverse of a sorted list. *)
Lemma sort_values_descending (scores : list Z) :
  by_ <$> df = Some <$> scores ->
  exists sorted : list Z,
    Sorted (flip Z.le) sorted /\
    by_ <$> sort_values argsort by_ false df = Some <$> sorted.
Proof.
  intros Hscores.
  exists (reverse (keys_through (List.map snd (reverse (zip (seq 0 (length scores)) scores)))
                     (argsort (List.map snd (reverse (zip (seq 0 (length scores)) scores)))))).
  split; [apply Sorted_reverse, argsort_sorted|].
  unfold sort_values, nargsort, non_nan, nan_idx.
  change (List.map by_ df) with (by_ <$> df). rewrite Hscores, length_fmap.
  destruct (non_nan_all_present 0 scores) as [-> ->]. rewrite app_nil_r.
  unfold take_rows. rewrite omap_reverse, (fmap_reverse by_), (fmap_reverse Some).
  f_equal. apply keys_of_taken. rewrite Forall_forall. intros [i k] Hin.
  rewrite elem_of_reverse in Hin.
  pose proof (zip_seq_lookup scores) as Hzip. rewrite Forall_forall in Hzip.
  specialize (Hzip _ Hin). simpl in *.
  rewrite <- list_lookup_fmap, Hscores, list_lookup_fmap, Hzip. done.
Qed.

End Descending.

Lemma same_key_self (has : bool) (l : MatchedRecord) :
  same_key l (opportunity_of has l) = true.
Proof.
  unfold same_key, opportunity_of. destruct (score_rules _ _ _ _ _). simpl.
  by rewrite !String.eqb_refl.
Qed.

(** When every left row finds its key on the right, the merge leaves no
    missing score. *)
Lemma merge_left_scored (left : list MatchedRecord) (right : list Opportunity) :
  (forall l, l ∈ left -> exists o, o ∈ right /\ same_key l o = true) ->
  Forall (fun x => is_Some (opportunity_score x)) (merge_left left right).
Proof.
  intros Hkeys. unfold merge_left. rewrite List.Forall_flat_map, List.Forall_forall.
  intros l Hl%list_elem_of_In. destruct (Hkeys l Hl) as (o & Ho & Hkey).
  destruct (List.filter (same_key l) right) as [|hit hits] eqn:Hhits.
  - assert (In o (List.filter (same_key l) right)) as Hin
      by (apply filter_In; split; [by apply list_elem_of_In | done]).
    by rewrite Hhits in Hin.
  - apply List.Forall_forall. intros x (o' & <- & _)%in_map_iff. by eexists.
Qed.

Lemma fmap_all_present {A : Type} (f : A -> option Z) (l : list A) :
  Forall (fun x => is_Some (f x)) l -> f <$> l = Some <$> omap f l.
Proof.
  induction 1 as [|x l [k Hk] _ IH]; [done|]. csimpl. rewrite Hk. csimpl. by rewrite IH.
Qed.

Lemma merged_scores (has : bool) (striking : list MatchedRecord) :
  exists scores : list Z,
    opportunity_score <$>
      merge_left striking (calculate_striking_distance_opportunities has striking)
    = Some <$> scores.
Proof.
  eexists. apply fmap_all_present, merge_left_scored.
  intros l Hl. exists (opportunity_of has l). split; [|apply same_key_self].
  unfold calculate_striking_distance_opportunities.
  apply list_elem_of_In, in_map. by apply list_elem_of_In.
Qed.

Lemma analyse_striking_distance (argsort : list Z -> list nat)
    (as_completed : list string -> list string) (s : Settings)
    (world : string -> FetchOutcome) (has : bool) (filtered_df removed : list KeywordRecord) :
  striking_distance (analyse argsort as_completed s world has filtered_df removed) =
  with_opportunities argsort has
    (striking_distance_of argsort
       (check_keywords
          (crawl_step as_completed (crawl_option s) world
             (unique_urls_of (max_urls s) filtered_df)) filtered_df).1).
Proof. unfold analyse. by destruct (check_keywords _ _). Qed.

(** C2, as far as it holds: the final striking-distance frame is a
    rearrangement of the merged, scored rows and stands in descending
    order of opportunity score.  (Nothing is promised about rows with
    equal scores.) *)
Theorem striking_distance_sorted (argsort : list Z -> list nat)
    (as_completed : list string -> list string) (s : Settings)
    (world : string -> FetchOutcome) (has : bool) (filtered_df removed : list KeywordRecord) :
  argsort_permutes argsort ->
  argsort_sorts argsort ->
  let striking :=
    striking_distance_of argsort
      (check_keywords
         (crawl_step as_completed (crawl_option s) world
            (unique_urls_of (max_urls s) filtered_df)) filtered_df).1 in
  striking_distance (analyse argsort as_completed s world has filtered_df removed)
    ≡ₚ merge_left striking (calculate_striking_distance_opportunities has striking) /\
  score_descending
    (striking_distance (analyse argsort as_completed s world has filtered_df removed)).
Proof.
  intros Hperm Hsorts striking. rewrite analyse_striking_distance. fold striking.
  unfold with_opportunities. destruct (0 <? length striking)%nat eqn:Hlen.
  - split; [by apply sort_values_perm|].
    destruct (merged_scores has striking) as [scores Hscores].
    destruct (sort_values_descending argsort Hsorts opportunity_score _ scores Hscores)
      as (sorted & Hsorted & Hout).
    apply Sorted_StronglySorted in Hsorted; [|intros a b c; unfold flip; lia].
    intros i j x y Hij Hx Hy.
    assert (forall n z, sort_values argsort opportunity_score false
                          (merge_left striking
                             (calculate_striking_distance_opportunities has striking)) !! n
                        = Some z ->
                        exists k, sorted !! n = Some k /\ opportunity_score z = Some k) as Hcol.
    { intros n z Hz. apply (f_equal (fun l => l !! n)) in Hout.
      rewrite !list_lookup_fmap, Hz in Hout. simpl in Hout.
      destruct (sorted !! n) as [k|]; simpl in Hout; [|done].
      exists k. split; [done | by injection Hout]. }
    destruct (Hcol _ _ Hx) as (sx & Hsx & Hxs), (Hcol _ _ Hy) as (sy & Hsy & Hys).
    exists sx, sy. split; [done|]. split; [done|].
    exact (StronglySorted_lookup _ _ i j sx sy Hsorted Hij Hsx Hsy).
  - destruct striking; [|done]. split; [done|]. by intros i j x y _ Hx.
Qed.

(** *** Rows with equal scores *)

Lemma argsort_pair (argsort : list Z -> list nat) (a b : Z) :
  argsort_permutes argsort ->
  argsort [a; b] = [0%nat; 1%nat] \/ argsort [a; b] = [1%nat; 0%nat].
Proof.
  intros Hperm. specialize (Hperm [a; b]). simpl in Hperm.
  symmetry in Hperm. by apply Permutation_length_2_inv in Hperm.
Qed.

Lemma argsort_pair_swap (argsort : list Z -> list nat) (a b : Z) :
  argsort_permutes argsort -> argsort_sorts argsort -> b < a ->
  argsort [a; b] = [1%nat; 0%nat].
Proof.
  intros Hperm Hsorts Hlt. destruct (argsort_pair argsort a b Hperm) as [H|H]; [|done].
  specialize (Hsorts [a; b]). rewrite H in Hsorts.
  change (Sorted Z.le [a; b]) in Hsorts.
  inversion Hsorts as [|? ? _ Hhd]. inversion Hhd. lia.
Qed.

Lemma argsort_pair_keep (argsort : list Z -> list nat) (a b : Z) :
  argsort_permutes argsort -> argsort_sorts argsort -> a < b ->
  argsort [a; b] = [0%nat; 1%nat].
Proof.
  intros Hperm Hsorts Hlt. destruct (argsort_pair argsort a b Hperm) as [H|H]; [done|].
  specialize (Hsorts [a; b]). rewrite H in Hsorts.
  change (Sorted Z.le [b; a]) in Hsorts.
  inversion Hsorts as [|? ? _ Hhd]. inversion Hhd. lia.
Qed.

(** Two frames of two records with equal scores, one listed by descending
    and one by ascending position: whatever [argsort] does with two equal
    keys, it does the same in both reports. *)
Lemma tie_outputs (argsort : list Z -> list nat) :
  argsort_permutes argsort -> argsort_sorts argsort ->
  (striking_distance (analyse argsort id Ex.settings Ex.shop true
                        [Ex.trail 5; Ex.road 4] [])
     = [Ex.scored (Ex.road 4); Ex.scored (Ex.trail 5)] /\
   striking_distance (analyse argsort id Ex.settings Ex.shop true
                        [Ex.trail 4; Ex.road 5] [])
     = [Ex.scored (Ex.trail 4); Ex.scored (Ex.road 5)]) \/
  (striking_distance (analyse argsort id Ex.settings Ex.shop true
                        [Ex.trail 5; Ex.road 4] [])
     = [Ex.scored (Ex.trail 5); Ex.scored (Ex.road 4)] /\
   striking_distance (analyse argsort id Ex.settings Ex.shop true
                        [Ex.trail 4; Ex.road 5] [])
     = [Ex.scored (Ex.road 5); Ex.scored (Ex.trail 4)]).
Proof.
  intros Hperm Hsorts.
  pose proof (argsort_pair_swap argsort 5 4 Hperm Hsorts eq_refl) as Hswap.
  pose proof (argsort_pair_keep argsort 4 5 Hperm Hsorts eq_refl) as Hkeep.
  destruct (argsort_pair argsort 45 45 Hperm) as [Htie|Htie]; [left | right]; split.
  - vm_compute. rewrite Hswap. vm_compute. rewrite Htie. reflexivity.
  - vm_compute. rewrite Hkeep. vm_compute. rewrite Htie. reflexivity.
  - vm_compute. rewrite Hswap. vm_compute. rewrite Htie. reflexivity.
  - vm_compute. rewrite Hkeep. vm_compute. rewrite Htie. reflexivity.
Qed.

Lemma not_before_swapped (a b : KeywordRecord) :
  a <> b -> ~ occurs_before b a [a; b].
Proof.
  intros Hne (i & j & Hij & Hi & Hj).
  destruct i as [|[|i]], j as [|[|j]]; try lia; cbv in Hi, Hj; congruence.
Qed.

(** C2 as stated fails: no [argsort] at all makes rows with equal scores
    keep their filtered-input order in both of these reports.  In
    [[trail 5; road 4]] and [[trail 4; road 5]] both records score 45; the
    frame is put in position order before it is scored, so the two
    reports present the tied rows to the final sort in opposite input
    orders. *)
Lemma tie_order_counterexample :
  ~ exists argsort : list Z -> list nat,
      argsort_permutes argsort /\ argsort_sorts argsort /\
      ties_keep_filter_order [Ex.trail 5; Ex.road 4]
        (striking_distance (analyse argsort id Ex.settings Ex.shop true
                              [Ex.trail 5; Ex.road 4] [])) /\
      ties_keep_filter_order [Ex.trail 4; Ex.road 5]
        (striking_distance (analyse argsort id Ex.settings Ex.shop true
                              [Ex.trail 4; Ex.road 5] [])).
Proof.
  intros (argsort & Hperm & Hsorts & Hdown & Hup).
  destruct (tie_outputs argsort Hperm Hsorts) as [[Hout _]|[_ Hout]].
  - rewrite Hout in Hdown.
    apply (not_before_swapped (Ex.trail 5) (Ex.road 4)); [discriminate|].
    apply (Hdown (Ex.scored (Ex.road 4)) (Ex.scored (Ex.trail 5))); [|done].
    exists 0%nat, 1%nat. by repeat split; [lia|..].
  - rewrite Hout in Hup.
    apply (not_before_swapped (Ex.trail 4) (Ex.road 5)); [discriminate|].
    apply (Hup (Ex.scored (Ex.road 5)) (Ex.scored (Ex.trail 4))); [|done].
    exists 0%nat, 1%nat. by repeat split; [lia|..].
Qed.

(** With the reference [argsort], which keeps equal keys in place, the
    first report lists the record of position 4 before the record of
    position 5, against their order in the filtered frame. *)
Example tie_order_run :
  striking_distance (analyse insertion_argsort id Ex.settings Ex.shop true
                       [Ex.trail 5; Ex.road 4] [])
  = [Ex.scored (Ex.road 4); Ex.scored (Ex.trail 5)].
Proof. by vm_compute. Qed.

(** An instance of the sorted order: three records, scores 45, 45, 60. *)
Lemma striking_distance_sorted_witness :
  argsort_permutes insertion_argsort /\ argsort_sorts insertion_argsort /\
  (let striking :=
     striking_distance_of insertion_argsort
       (check_keywords
          (crawl_step id (crawl_option Ex.settings) Ex.shop
             (unique_urls_of (max_urls Ex.settings) [Ex.trail 5; Ex.road 4; Ex.hike 8]))
          [Ex.trail 5; Ex.road 4; Ex.hike 8]).1 in
   striking_distance (analyse insertion_argsort id Ex.settings Ex.shop true
                        [Ex.trail 5; Ex.road 4; Ex.hike 8] [])
     ≡ₚ merge_left striking (calculate_striking_distance_opportunities true striking) /\
   score_descending
     (striking_distance (analyse insertion_argsort id Ex.settings Ex.shop true
                           [Ex.trail 5; Ex.road 4; Ex.hike 8] []))).
Proof.
  split; [exact insertion_argsort_permutes|]. split; [exact insertion_argsort_sorts|].
  exact (striking_distance_sorted insertion_argsort id Ex.settings Ex.shop true
           [Ex.trail 5; Ex.road 4; Ex.hike 8] []
           insertion_argsort_permutes insertion_argsort_sorts).
Defined.

Example striking_distance_sorted_run :
  opportunity_score <$>
    striking_distance (analyse insertion_argsort id Ex.settings Ex.shop true
                         [Ex.trail 5; Ex.road 4; Ex.hike 8] [])
  = [Some 60; Some 45; Some 45].
Proof. by vm_compute. Qed.

(** ** Records sharing their URL and keyword *)

Lemma same_key_iff (has : bool) (l l' : MatchedRecord) :
  same_key l (opportunity_of has l') = true <-> key_of l = key_of l'.
Proof.
  unfold same_key, opportunity_of, key_of. destruct (score_rules _ _ _ _ _). simpl.
  rewrite andb_true_iff, !String.eqb_eq. split; [by intros [-> ->] | by intros [= -> ->]].
Qed.

Lemma filter_no_key (has : bool) (l : MatchedRecord) (others : list MatchedRecord) :
  key_of l ∉ key_of <$> others ->
  List.filter (same_key l) (List.map (opportunity_of has) others) = [].
Proof.
  induction others as [|x others IH]; [done|]. csimpl. intros Hout.
  rewrite not_elem_of_cons in Hout. destruct Hout as [Hne Hout].
  destruct (same_key l (opportunity_of has x)) eqn:Hkey.
  - by apply same_key_iff in Hkey.
  - by apply IH.
Qed.

Lemma filter_own_key (has : bool) (l : MatchedRecord) (left : list MatchedRecord) :
  NoDup (key_of <$> left) -> l ∈ left ->
  List.filter (same_key l) (List.map (opportunity_of has) left) = [opportunity_of has l].
Proof.
  induction left as [|x left IH]; [by intros _ ?%elem_of_nil|].
  csimpl. intros [Hx Hnodup]%NoDup_cons [->|Hl]%elem_of_cons.
  - rewrite same_key_self. f_equal. by apply filter_no_key.
  - destruct (same_key l (opportunity_of has x)) eqn:Hkey; [|by apply IH].
    apply same_key_iff in Hkey. destruct Hx. rewrite <- Hkey.
    by apply list_elem_of_fmap_2.
Qed.

Lemma merge_left_single (left : list MatchedRecord) (right : list Opportunity)
    (pick : MatchedRecord -> Opportunity) :
  (forall l, l ∈ left -> List.filter (same_key l) right = [pick l]) ->
  merge_left left right
  = (fun l => {| matched := l;
                 opportunity_score := Some (o_score (pick l));
                 recommendations := Some (o_recommendations (pick l)) |}) <$> left.
Proof.
  unfold merge_left. induction left as [|x left IH]; intros Hpick; [done|]. csimpl.
  rewrite (Hpick x) by left. simpl. f_equal. apply IH.
  intros l Hl. apply Hpick. by right.
Qed.

(** When no two striking-distance records share their (url, keyword), the
    merge attaches to every record its own score, one row per record. *)
Lemma merge_left_distinct_keys (has : bool) (left : list MatchedRecord) :
  NoDup (key_of <$> left) ->
  merge_left left (calculate_striking_distance_opportunities has left)
  = own_row has <$> left.
Proof.
  intros Hnodup. apply (merge_left_single _ _ (opportunity_of has)).
  intros l Hl. by apply filter_own_key.
Qed.

(** C9, on the input where the code departs from it: rows 0 and 10 of the
    built-in sample data share their URL and keyword.  Both survive the
    filters and both need work, yet the final striking-distance frame has
    four rows: each of the two records appears once with its own score
    (70 at position 4, 60 at position 6) and once with the score of the
    other. *)
Theorem duplicate_keys_multiply :
  filter_keywords Ex.sample_settings Ex.sample_frame
    = Some ([Ex.sample0; Ex.sample10], []) /\
  option_map
    (fun report =>
       List.map (fun x => (position (base (matched x)), opportunity_score x))
                (striking_distance report))
    (main insertion_argsort id Ex.sample_settings Ex.shop Ex.sample_frame)
    = Some [(4, Some 70); (6, Some 70); (4, Some 60); (6, Some 60)] /\
  List.map (fun l => (position (base l), o_score (opportunity_of true l)))
    (striking_distance_of insertion_argsort
       (check_keywords (sample_all ["https://example.com/page1"])
                       [Ex.sample0; Ex.sample10]).1)
    = [(4, 70); (6, 60)].
Proof. by vm_compute. Qed.

(** Eleven pages against a cap of ten: the record on the eleventh page is
    reported as not found. *)
Lemma beyond_cap_not_found_witness :
  completes_each_once id /\
  (max_urls Ex.capped_settings < length (unique (List.map url Ex.eleven)))%nat /\
  (let unique_urls := unique_urls_of (max_urls Ex.capped_settings) Ex.eleven in
   let crawl_results :=
     crawl_step id (crawl_option Ex.capped_settings) Ex.shop unique_urls in
   unique_urls = take (max_urls Ex.capped_settings)
                   (first_appearances (List.map url Ex.eleven)) /\
   length unique_urls = max_urls Ex.capped_settings /\
   dom crawl_results = list_to_set unique_urls /\
   (forall r : KeywordRecord, r ∈ Ex.eleven -> url r ∉ unique_urls ->
      bucket_of crawl_results r = NotFound /\
      not_found_row r ∈
        urls_not_found (analyse insertion_argsort id Ex.capped_settings Ex.shop true
                          Ex.eleven [])) /\
   urls_not_found (analyse insertion_argsort id Ex.capped_settings Ex.shop true
                     Ex.eleven []) =
     not_found_row <$> in_bucket crawl_results NotFound Ex.eleven).
Proof.
  assert (completes_each_once id) as Hdone by (intros urls; reflexivity).
  assert (max_urls Ex.capped_settings < length (unique (List.map url Ex.eleven)))%nat
    as Hmore by (vm_compute; lia).
  split; [exact Hdone|]. split; [exact Hmore|].
  exact (beyond_cap_not_found insertion_argsort id Ex.capped_settings Ex.shop true
           Ex.eleven [] Hdone Hmore).
Defined.

Example beyond_cap_run :
  unique_urls_of 2 [Ex.trail 4; Ex.road 6; Ex.hike 8; Ex.on_page "c"]
    = ["https://example.com/a"; "https://example.com/b"] /\
  urls_not_found (analyse insertion_argsort id Ex.capped_settings Ex.shop true
                    Ex.eleven [])
    = [ {| nf_url := "https://example.com/k"; nf_keyword := "trail shoes" |} ].
Proof. by vm_compute. Qed.

(** * Further properties of the program *)

(** ** Characters and case *)

Lemma lower_char_idem (c : ascii) : Str.lower_char (Str.lower_char c) = Str.lower_char c.
Proof. destruct c as [[] [] [] [] [] [] [] []]; reflexivity. Qed.

Lemma is_space_lower_char (c : ascii) : Str.is_space (Str.lower_char c) = Str.is_space c.
Proof. destruct c as [[] [] [] [] [] [] [] []]; reflexivity. Qed.

Lemma lower_char_blank (c : ascii) :
  Ascii.eqb (Str.lower_char c) " " = Ascii.eqb c " ".
Proof. destruct c as [[] [] [] [] [] [] [] []]; reflexivity. Qed.

Lemma lower_char_newline (c : ascii) :
  Ascii.eqb (Str.lower_char c) Re.newline = Ascii.eqb c Re.newline.
Proof. destruct c as [[] [] [] [] [] [] [] []]; reflexivity. Qed.

Lemma lower_idem (s : string) : Str.lower (Str.lower s) = Str.lower s.
Proof. induction s as [|c s IH]; simpl; [done | by rewrite lower_char_idem, IH]. Qed.


Lemma is_empty_lower (s : string) : Str.is_empty (Str.lower s) = Str.is_empty s.
Proof. by destruct s. Qed.

Lemma lower_eq_is_empty (s s' : string) :
  Str.lower s = Str.lower s' -> Str.is_empty s = Str.is_empty s'.
Proof. intros H. by rewrite <- (is_empty_lower s), H, is_empty_lower. Qed.

(** ** More on the keyword matcher *)

(** X1: the presence check does not see case: two keywords that agree up
    to the case of their letters, tested against two texts that agree up
    to case, get the same answer. *)
Theorem check_keyword_presence_case (keyword keyword' text text' : string) :
  Str.lower keyword = Str.lower keyword' ->
  Str.lower text = Str.lower text' ->
  check_keyword_presence keyword text = check_keyword_presence keyword' text'.
Proof.
  intros Hk Ht. unfold check_keyword_presence.
  by rewrite (lower_eq_is_empty _ _ Hk), (lower_eq_is_empty _ _ Ht), Hk, Ht.
Qed.

Lemma check_keyword_presence_case_witness :
  Str.lower "Running Shoes" = Str.lower "RUNNING shoes" /\
  Str.lower "Best running shoes" = Str.lower "BEST Running Shoes" /\
  check_keyword_presence "Running Shoes" "Best running shoes"
  = check_keyword_presence "RUNNING shoes" "BEST Running Shoes".
Proof.
  split; [reflexivity|]. split; [reflexivity|].
  apply (check_keyword_presence_case "Running Shoes" "RUNNING shoes"
           "Best running shoes" "BEST Running Shoes"); reflexivity.
Defined.





(** ** More on the scorer *)


(** X4: the recommendations account for the score: the score is the sum
    of the points of the listed recommendations, at most one of them is a
    position band, there are at most five, and the list is empty exactly
    when the score is 0. *)
Theorem recommendations_account_for_score (position : Z) (t h c : bool) (impressions : Z) :
  sum_Z (List.map points_of (snd (score_rules position t h c impressions)))
    = fst (score_rules position t h c impressions) /\
  (length (List.filter is_band (snd (score_rules position t h c impressions))) <= 1)%nat /\
  (length (snd (score_rules position t h c impressions)) <= 5)%nat /\
  (snd (score_rules position t h c impressions) = []
     <-> fst (score_rules position t h c impressions) = 0).
Proof.
  unfold score_rules.
  destruct ((3 <=? position) && (position <=? 5)),
           ((6 <=? position) && (position <=? 10)),
           ((11 <=? position) && (position <=? 20)),
           t, h, c, (1000 <? impressions);
    (split; [reflexivity|]; split; [cbn; lia|]; split; [cbn; lia|]; split; by cbn).
Qed.

(** ** More on sorting *)

Lemma column_sorted {A : Type} (R : relation Z) (by_ : A -> option Z)
    (out : list A) (sorted : list Z) :
  by_ <$> out = Some <$> sorted ->
  StronglySorted R sorted ->
  forall (i j : nat) (x y : A),
    (i < j)%nat -> out !! i = Some x -> out !! j = Some y ->
    exists kx ky : Z, by_ x = Some kx /\ by_ y = Some ky /\ R kx ky.
Proof.
  intros Hout Hsorted i j x y Hij Hx Hy.
  assert (forall n z, out !! n = Some z ->
            exists k, sorted !! n = Some k /\ by_ z = Some k) as Hcol.
  { intros n z Hz. apply (f_equal (fun l => l !! n)) in Hout.
    rewrite !list_lookup_fmap, Hz in Hout. simpl in Hout.
    destruct (sorted !! n) as [k|]; simpl in Hout; [|done].
    exists k. split; [done | by injection Hout]. }
  destruct (Hcol _ _ Hx) as (kx & Hkx & Hxk), (Hcol _ _ Hy) as (ky & Hky & Hyk).
  exists kx, ky. split; [done|]. split; [done|].
  exact (StronglySorted_lookup _ _ i j kx ky Hsorted Hij Hkx Hky).
Qed.

(** Sorting in ascending order on a column without missing cells. *)
Lemma sort_values_ascending {A : Type} (argsort : list Z -> list nat)
    (by_ : A -> option Z) (df : list A) (keys : list Z) :
  argsort_sorts argsort ->
  by_ <$> df = Some <$> keys ->
  exists sorted : list Z,
    Sorted Z.le sorted /\
    by_ <$> sort_values argsort by_ true df = Some <$> sorted.
Proof.
  intros Hsorts Hkeys.
  exists (keys_through (List.map snd (zip (seq 0 (length keys)) keys))
            (argsort (List.map snd (zip (seq 0 (length keys)) keys)))).
  split; [apply Hsorts|].
  unfold sort_values, nargsort, non_nan, nan_idx.
  change (List.map by_ df) with (by_ <$> df). rewrite Hkeys, length_fmap.
  destruct (non_nan_all_present 0 keys) as [-> ->]. rewrite app_nil_r.
  apply keys_of_taken. rewrite Forall_forall. intros [i k] Hin.
  pose proof (zip_seq_lookup keys) as Hzip. rewrite Forall_forall in Hzip.
  specialize (Hzip _ Hin). simpl in *.
  rewrite <- list_lookup_fmap, Hkeys, list_lookup_fmap, Hzip. done.
Qed.

(** X5: before it is scored, the striking-distance frame is in ascending
    order of position (line 455), whatever [argsort] does with equal
    positions. *)
Theorem striking_distance_by_position (argsort : list Z -> list nat)
    (results : list MatchedRecord) :
  argsort_sorts argsort ->
  forall (i j : nat) (x y : MatchedRecord),
    (i < j)%nat ->
    striking_distance_of argsort results !! i = Some x ->
    striking_distance_of argsort results !! j = Some y ->
    position (base x) <= position (base y).
Proof.
  intros Hsorts i j x y Hij Hx Hy. unfold striking_distance_of in Hx, Hy.
  destruct (0 <? length results)%nat; [|done].
  set (rows := List.filter _ results) in *.
  destruct (sort_values_ascending argsort (fun r => Some (position (base r))) rows
              ((fun r => position (base r)) <$> rows) Hsorts) as (sorted & Hsorted & Hout).
  { by rewrite <- list_fmap_compose. }
  apply Sorted_StronglySorted in Hsorted; [|intros a b c; lia].
  destruct (column_sorted Z.le _ _ _ Hout Hsorted i j x y Hij Hx Hy)
    as (kx & ky & [= <-] & [= <-] & Hle).
  done.
Qed.

Lemma striking_distance_by_position_witness :
  argsort_sorts insertion_argsort /\
  (forall (i j : nat) (x y : MatchedRecord),
     (i < j)%nat ->
     striking_distance_of insertion_argsort
       (check_keywords Ex.crawled [Ex.hike 8; Ex.hike 3; Ex.hike 5]).1 !! i = Some x ->
     striking_distance_of insertion_argsort
       (check_keywords Ex.crawled [Ex.hike 8; Ex.hike 3; Ex.hike 5]).1 !! j = Some y ->
     position (base x) <= position (base y)).
Proof.
  split; [exact insertion_argsort_sorts|].
  exact (striking_distance_by_position insertion_argsort
           (check_keywords Ex.crawled [Ex.hike 8; Ex.hike 3; Ex.hike 5]).1
           insertion_argsort_sorts).
Defined.

Example striking_distance_by_position_run :
  (fun m => position (base m)) <$>
    striking_distance_of insertion_argsort
      (check_keywords Ex.crawled [Ex.hike 8; Ex.hike 3; Ex.hike 5]).1
  = [3; 5; 8].
Proof. by vm_compute. Qed.

(** ** More on the scored frame *)

Lemma merge_left_elem (has : bool) (left : list MatchedRecord) (x : ScoredRecord) :
  x ∈ merge_left left (calculate_striking_distance_opportunities has left) ->
  matched x ∈ left /\
  exists l', l' ∈ left /\ key_of l' = key_of (matched x) /\
             opportunity_score x = Some (o_score (opportunity_of has l')) /\
             recommendations x = Some (o_recommendations (opportunity_of has l')).
Proof.
  unfold merge_left, calculate_striking_distance_opportunities.
  intros (l & Hl & Hx)%list_elem_of_In%in_flat_map.
  destruct (List.filter (same_key l) (List.map (opportunity_of has) left))
    as [|hit hits] eqn:Hhits.
  - assert (In (opportunity_of has l)
              (List.filter (same_key l) (List.map (opportunity_of has) left))) as Hin
      by (apply filter_In; split; [by apply in_map | apply same_key_self]).
    by rewrite Hhits in Hin.
  - rewrite <- Hhits in Hx. apply in_map_iff in Hx as (o & <- & Ho).
    apply filter_In in Ho as [(l' & <- & Hl')%in_map_iff Hkey]. simpl.
    split; [by apply list_elem_of_In|]. exists l'.
    split; [by apply list_elem_of_In|]. split; [|done].
    symmetry. by apply (same_key_iff has).
Qed.

Lemma merge_left_own (has : bool) (left : list MatchedRecord) (l : MatchedRecord) :
  l ∈ left ->
  own_row has l ∈ merge_left left (calculate_striking_distance_opportunities has left).
Proof.
  intros Hl. unfold merge_left, calculate_striking_distance_opportunities.
  apply list_elem_of_In, in_flat_map. exists l. split; [by apply list_elem_of_In|].
  assert (In (opportunity_of has l)
            (List.filter (same_key l) (List.map (opportunity_of has) left))) as Hin
    by (apply filter_In; split;
        [apply in_map; by apply list_elem_of_In | apply same_key_self]).
  destruct (List.filter (same_key l) (List.map (opportunity_of has) left))
    as [|hit hits]; [done|].
  apply in_map_iff. by exists (opportunity_of has l).
Qed.

Lemma merge_left_length (left : list MatchedRecord) (right : list Opportunity) :
  (length left <= length (merge_left left right))%nat.
Proof.
  unfold merge_left. induction left as [|l left IH]; [simpl; lia|].
  cbn [flat_map]. rewrite length_app.
  set (n := length (flat_map _ left)) in *.
  destruct (List.filter (same_key l) right) as [|o hits]; cbn [length List.map]; lia.
Qed.

Lemma with_opportunities_perm (argsort : list Z -> list nat) (has : bool)
    (striking : list MatchedRecord) :
  argsort_permutes argsort ->
  with_opportunities argsort has striking
  ≡ₚ merge_left striking (calculate_striking_distance_opportunities has striking).
Proof.
  intros Hperm. unfold with_opportunities.
  destruct (0 <? length striking)%nat eqn:Hlen; [by apply sort_values_perm|].
  by destruct striking.
Qed.

Lemma striking_elem (argsort : list Z -> list nat)
    (crawl_results : gmap string PageContent) (filtered_df : list KeywordRecord)
    (l : MatchedRecord) :
  argsort_permutes argsort ->
  l ∈ striking_distance_of argsort (check_keywords crawl_results filtered_df).1 ->
  all_present l = false /\
  base l ∈ in_bucket crawl_results StrikingDistance filtered_df.
Proof.
  intros Hperm Hl. rewrite striking_distance_of_perm in Hl by done.
  rewrite <- (results_bucket _ _ false).
  split.
  - apply list_elem_of_In, filter_In in Hl as [_ Hl]. by destruct (all_present l).
  - by apply list_elem_of_fmap_2.
Qed.

Lemma in_bucket_elem (crawl_results : gmap string PageContent) (b : Bucket)
    (filtered_df : list KeywordRecord) (r : KeywordRecord) :
  r ∈ in_bucket crawl_results b filtered_df <->
  r ∈ filtered_df /\ bucket_of crawl_results r = b.
Proof.
  unfold in_bucket. rewrite !list_elem_of_In, filter_In.
  destruct (bucket_of crawl_results r), b; simpl; intuition congruence.
Qed.

Lemma striking_score (has : bool) (l : MatchedRecord) :
  all_present l = false ->
  5 <= o_score (opportunity_of has l) <= 70 /\
  o_recommendations (opportunity_of has l) <> EmptyString.
Proof.
  unfold all_present, opportunity_of, score_rules. intros Hl.
  destruct ((3 <=? position (base l)) && (position (base l) <=? 5)),
           ((6 <=? position (base l)) && (position (base l) <=? 10)),
           ((11 <=? position (base l)) && (position (base l) <=? 20)),
           (in_title l), (in_h1 l), (in_content l),
           (1000 <? row_get_impressions has (base l));
    try discriminate Hl; (split; [cbn; lia | by cbn]).
Qed.

(** X6: every row of the final striking-distance frame belongs to a
    filtered record of the striking-distance bucket, and carries a score
    between 5 and 70 together with a non-empty recommendations text (the
    score and text computed for a striking-distance record with the row's
    URL and keyword). *)
Theorem final_rows_scored (argsort : list Z -> list nat)
    (as_completed : list string -> list string) (s : Settings)
    (world : string -> FetchOutcome) (has : bool)
    (filtered_df removed : list KeywordRecord) (x : ScoredRecord) :
  argsort_permutes argsort ->
  x ∈ striking_distance (analyse argsort as_completed s world has filtered_df removed) ->
  base (matched x) ∈ filtered_df /\
  bucket_of (crawl_step as_completed (crawl_option s) world
               (unique_urls_of (max_urls s) filtered_df)) (base (matched x))
    = StrikingDistance /\
  all_present (matched x) = false /\
  exists (score : Z) (text : string),
    opportunity_score x = Some score /\ recommendations x = Some text /\
    5 <= score <= 70 /\ text <> EmptyString.
Proof.
  intros Hperm Hx. rewrite analyse_striking_distance in Hx.
  rewrite with_opportunities_perm in Hx by done.
  apply merge_left_elem in Hx as (Hl & l' & Hl' & _ & Hscore & Htext).
  apply (striking_elem argsort) in Hl as [Hall Hbucket]; [|done].
  apply in_bucket_elem in Hbucket as [Hin Hbucket].
  apply (striking_elem argsort) in Hl' as [Hall' _]; [|done].
  repeat split; try done.
  exists (o_score (opportunity_of has l')), (o_recommendations (opportunity_of has l')).
  split; [done|]. split; [done|]. by apply striking_score.
Qed.

Lemma final_rows_scored_witness :
  argsort_permutes insertion_argsort /\
  Ex.scored (Ex.road 4)
    ∈ striking_distance (analyse insertion_argsort id Ex.settings Ex.shop true
                           [Ex.trail 5; Ex.road 4] []) /\
  (base (matched (Ex.scored (Ex.road 4))) ∈ [Ex.trail 5; Ex.road 4] /\
   bucket_of (crawl_step id (crawl_option Ex.settings) Ex.shop
                (unique_urls_of (max_urls Ex.settings) [Ex.trail 5; Ex.road 4]))
             (base (matched (Ex.scored (Ex.road 4))))
     = StrikingDistance /\
   all_present (matched (Ex.scored (Ex.road 4))) = false /\
   exists (score : Z) (text : string),
     opportunity_score (Ex.scored (Ex.road 4)) = Some score /\
     recommendations (Ex.scored (Ex.road 4)) = Some text /\
     5 <= score <= 70 /\ text <> EmptyString).
Proof.
  assert (Ex.scored (Ex.road 4)
            ∈ striking_distance (analyse insertion_argsort id Ex.settings Ex.shop true
                                   [Ex.trail 5; Ex.road 4] [])) as Hin
    by (vm_compute; left).
  split; [exact insertion_argsort_permutes|]. split; [exact Hin|].
  exact (final_rows_scored insertion_argsort id Ex.settings Ex.shop true
           [Ex.trail 5; Ex.road 4] [] (Ex.scored (Ex.road 4))
           insertion_argsort_permutes Hin).
Defined.

(** X7: scoring and merging never lose a record: every filtered record of
    the striking-distance bucket has a row in the final frame that carries
    the score and the recommendations computed for that very row, and the
    final frame has at least as many rows as the bucket has records. *)
Theorem striking_records_reported (argsort : list Z -> list nat)
    (as_completed : list string -> list string) (s : Settings)
    (world : string -> FetchOutcome) (has : bool)
    (filtered_df removed : list KeywordRecord) :
  argsort_permutes argsort ->
  let crawl_results :=
    crawl_step as_completed (crawl_option s) world
      (unique_urls_of (max_urls s) filtered_df) in
  let final :=
    striking_distance (analyse argsort as_completed s world has filtered_df removed) in
  (forall r : KeywordRecord,
     r ∈ in_bucket crawl_results StrikingDistance filtered_df ->
     exists x : ScoredRecord,
       x ∈ final /\ base (matched x) = r /\ x = own_row has (matched x)) /\
  (length (in_bucket crawl_results StrikingDistance filtered_df) <= length final)%nat.
Proof.
  intros Hperm crawl_results final. subst final.
  rewrite analyse_striking_distance. fold crawl_results.
  set (striking := striking_distance_of argsort
                     (check_keywords crawl_results filtered_df).1).
  assert (base <$> striking ≡ₚ in_bucket crawl_results StrikingDistance filtered_df)
    as Hbucket.
  { unfold striking. rewrite striking_distance_of_perm by done.
    by rewrite (results_bucket _ _ false). }
  split.
  - intros r Hr. rewrite <- Hbucket in Hr.
    apply list_elem_of_fmap in Hr as (l & -> & Hl).
    exists (own_row has l). split; [|done].
    rewrite with_opportunities_perm by done. by apply merge_left_own.
  - rewrite <- Hbucket, length_fmap, with_opportunities_perm by done.
    apply merge_left_length.
Qed.

Lemma striking_records_reported_witness :
  argsort_permutes insertion_argsort /\
  (let crawl_results :=
     crawl_step id (crawl_option Ex.sample_settings) Ex.shop
       (unique_urls_of (max_urls Ex.sample_settings) [Ex.sample0; Ex.sample10]) in
   let final :=
     striking_distance (analyse insertion_argsort id Ex.sample_settings Ex.shop true
                          [Ex.sample0; Ex.sample10] []) in
   (forall r : KeywordRecord,
      r ∈ in_bucket crawl_results StrikingDistance [Ex.sample0; Ex.sample10] ->
      exists x : ScoredRecord,
        x ∈ final /\ base (matched x) = r /\ x = own_row true (matched x)) /\
   (length (in_bucket crawl_results StrikingDistance [Ex.sample0; Ex.sample10])
      <= length final)%nat).
Proof.
  split; [exact insertion_argsort_permutes|].
  exact (striking_records_reported insertion_argsort id Ex.sample_settings Ex.shop true
           [Ex.sample0; Ex.sample10] [] insertion_argsort_permutes).
Defined.

Lemma filter_sublist {A : Type} (f : A -> bool) (l : list A) :
  List.filter f l `sublist_of` l.
Proof.
  induction l as [|x l IH]; simpl; [constructor|].
  destruct (f x); by constructor.
Qed.

(** X8: when no two filtered records share their URL and keyword, the
    final striking-distance frame has exactly one row for every record of
    the striking-distance bucket, and every row carries the score and the
    recommendations computed for its own record. *)
Theorem distinct_keys_one_row_each (argsort : list Z -> list nat)
    (as_completed : list string -> list string) (s : Settings)
    (world : string -> FetchOutcome) (has : bool)
    (filtered_df removed : list KeywordRecord) :
  argsort_permutes argsort ->
  NoDup ((fun r => (url r, keyword r)) <$> filtered_df) ->
  let crawl_results :=
    crawl_step as_completed (crawl_option s) world
      (unique_urls_of (max_urls s) filtered_df) in
  let final :=
    striking_distance (analyse argsort as_completed s world has filtered_df removed) in
  (fun x => base (matched x)) <$> final
    ≡ₚ in_bucket crawl_results StrikingDistance filtered_df /\
  Forall (fun x => x = own_row has (matched x)) final.
Proof.
  intros Hperm Hkeys crawl_results final. subst final.
  rewrite analyse_striking_distance. fold crawl_results.
  set (striking := striking_distance_of argsort
                     (check_keywords crawl_results filtered_df).1).
  assert (base <$> striking ≡ₚ in_bucket crawl_results StrikingDistance filtered_df)
    as Hbucket.
  { unfold striking. rewrite striking_distance_of_perm by done.
    by rewrite (results_bucket _ _ false). }
  assert (NoDup (key_of <$> striking)) as Hnodup.
  { change key_of with ((fun r => (url r, keyword r)) ∘ base).
    rewrite list_fmap_compose, Hbucket.
    eapply sublist_NoDup; [exact Hkeys|].
    apply fmap_sublist, filter_sublist. }
  rewrite with_opportunities_perm, merge_left_distinct_keys by done.
  split.
  - rewrite <- list_fmap_compose. by rewrite <- Hbucket.
  - apply Forall_fmap, Forall_forall. by intros l _.
Qed.

Lemma distinct_keys_one_row_each_witness :
  argsort_permutes insertion_argsort /\
  NoDup ((fun r => (url r, keyword r)) <$> [Ex.trail 5; Ex.road 4; Ex.hike 8]) /\
  (let crawl_results :=
     crawl_step id (crawl_option Ex.settings) Ex.shop
       (unique_urls_of (max_urls Ex.settings) [Ex.trail 5; Ex.road 4; Ex.hike 8]) in
   let final :=
     striking_distance (analyse insertion_argsort id Ex.settings Ex.shop true
                          [Ex.trail 5; Ex.road 4; Ex.hike 8] []) in
   (fun x => base (matched x)) <$> final
     ≡ₚ in_bucket crawl_results StrikingDistance [Ex.trail 5; Ex.road 4; Ex.hike 8] /\
   Forall (fun x => x = own_row true (matched x)) final).
Proof.
  assert (NoDup ((fun r => (url r, keyword r)) <$> [Ex.trail 5; Ex.road 4; Ex.hike 8]))
    as Hkeys by (apply (bool_decide_unpack _); vm_compute; exact I).
  split; [exact insertion_argsort_permutes|]. split; [exact Hkeys|].
  exact (distinct_keys_one_row_each insertion_argsort id Ex.settings Ex.shop true
           [Ex.trail 5; Ex.road 4; Ex.hike 8] [] insertion_argsort_permutes Hkeys).
Defined.

(** ** More on the filter stage *)

Lemma apply_blocklist_sublist (str_contains : string -> option (string -> bool))
    (blocklist : list string) :
  forall filtered_df removed_so_far filtered removed : list KeywordRecord,
    apply_blocklist_with str_contains blocklist filtered_df removed_so_far
      = Some (filtered, removed) ->
    filtered `sublist_of` filtered_df.
Proof.
  induction blocklist as [|term blocklist IH]; intros f rem f' rem' Hrun; simpl in Hrun.
  - by injection Hrun as <- <-.
  - destruct (str_contains term) as [test|]; [|done].
    apply IH in Hrun. etrans; [exact Hrun | apply filter_sublist].
Qed.

Lemma prefilter_sublist (s : Settings) (df : DataFrame) :
  impressions_filter (has_impressions df) (min_impressions s)
    (position_filter (position_range s) (rows df)) `sublist_of` rows df.
Proof.
  unfold impressions_filter, position_filter.
  destruct (has_impressions df); [|apply filter_sublist].
  etrans; apply filter_sublist.
Qed.

(** X9: whatever [str.contains] does, the filter stage only drops rows:
    the filtered frame is the uploaded frame with some rows left out, the
    others in their original order, and every row recorded as removed by
    the blocklist is a row of the uploaded frame. *)
Theorem filter_keeps_order (str_contains : string -> option (string -> bool))
    (s : Settings) (df : DataFrame) (filtered removed : list KeywordRecord) :
  filter_keywords_with str_contains s df = Some (filtered, removed) ->
  filtered `sublist_of` rows df /\
  (forall r : KeywordRecord, r ∈ removed -> r ∈ rows df).
Proof.
  intros Hrun. split.
  - unfold filter_keywords_with in Hrun. destruct (Str.is_empty _).
    + injection Hrun as <- _. apply prefilter_sublist.
    + apply apply_blocklist_sublist in Hrun. etrans; [exact Hrun | apply prefilter_sublist].
  - intros r Hr. apply filter_keywords_moves in Hrun.
    eapply elem_of_sublist; [|apply (prefilter_sublist s df)].
    rewrite <- Hrun. apply elem_of_app. by right.
Qed.

Lemma filter_keeps_order_witness :
  filter_keywords_with Re.str_contains Ex.plain_settings Ex.mixed_frame
    = Some ([Ex.road 6], [Ex.near_me]) /\
  ([Ex.road 6] `sublist_of` rows Ex.mixed_frame /\
   (forall r : KeywordRecord, r ∈ [Ex.near_me] -> r ∈ rows Ex.mixed_frame)).
Proof.
  assert (filter_keywords_with Re.str_contains Ex.plain_settings Ex.mixed_frame
          = Some ([Ex.road 6], [Ex.near_me])) as Hrun by reflexivity.
  split; [exact Hrun|].
  exact (filter_keeps_order Re.str_contains Ex.plain_settings Ex.mixed_frame _ _ Hrun).
Defined.

Lemma blocked_spec (blocklist : list string) (r : KeywordRecord) :
  blocked blocklist r = true <->
  exists term : string,
    term ∈ blocklist /\ Str.substring_of term (Str.lower (keyword r)).
Proof.
  unfold blocked. rewrite existsb_exists.
  split; intros (term & Hterm & Hin); exists term.
  - split; [by apply list_elem_of_In | by apply contains_spec].
  - split; [by apply list_elem_of_In | by apply contains_spec].
Qed.

(** X10: with a blocklist whose terms hold no regular-expression
    metacharacter, the filter stage returns, and of the rows that passed
    the position and impressions filters it keeps exactly those whose
    lower-cased keyword contains no term and records as removed exactly
    those whose lower-cased keyword contains some term; no row is lost or
    recorded twice. *)
Theorem blocklist_plain_terms (s : Settings) (df : DataFrame) :
  Forall (fun term => Re.literal term = true) (parse_blocklist (blocklist_input s)) ->
  exists filtered removed : list KeywordRecord,
    filter_keywords s df = Some (filtered, removed) /\
    (forall r : KeywordRecord,
       r ∈ filtered <->
       r ∈ impressions_filter (has_impressions df) (min_impressions s)
             (position_filter (position_range s) (rows df)) /\
       ~ exists term : string,
           term ∈ parse_blocklist (blocklist_input s) /\
           Str.substring_of term (Str.lower (keyword r))) /\
    (forall r : KeywordRecord,
       r ∈ removed <->
       r ∈ impressions_filter (has_impressions df) (min_impressions s)
             (position_filter (position_range s) (rows df)) /\
       exists term : string,
         term ∈ parse_blocklist (blocklist_input s) /\
         Str.substring_of term (Str.lower (keyword r))) /\
    (length filtered + length removed =
     length (impressions_filter (has_impressions df) (min_impressions s)
               (position_filter (position_range s) (rows df))))%nat.
Proof.
  intros Hlit.
  destruct (filter_keywords_literal s df Hlit) as (filtered & removed & Hrun & -> & Hrem & _).
  exists (List.filter
            (fun r => negb (blocked (parse_blocklist (blocklist_input s)) r))
            (impressions_filter (has_impressions df) (min_impressions s)
               (position_filter (position_range s) (rows df)))), removed.
  split; [done|]. split; [|split].
  - intros r. rewrite <- blocked_spec, !list_elem_of_In, filter_In, negb_true_iff.
    destruct (blocked _ r); intuition congruence.
  - intros r. rewrite <- blocked_spec, Hrem, !list_elem_of_In, filter_In. tauto.
  - rewrite Hrem, <- length_app. apply Permutation_length.
    rewrite Permutation_app_comm. apply filter_split.
Qed.

Lemma blocklist_plain_terms_witness :
  Forall (fun term => Re.literal term = true)
         (parse_blocklist (blocklist_input Ex.plain_settings)) /\
  exists filtered removed : list KeywordRecord,
    filter_keywords Ex.plain_settings Ex.mixed_frame = Some (filtered, removed) /\
    (forall r : KeywordRecord,
       r ∈ filtered <->
       r ∈ impressions_filter (has_impressions Ex.mixed_frame)
             (min_impressions Ex.plain_settings)
             (position_filter (position_range Ex.plain_settings) (rows Ex.mixed_frame)) /\
       ~ exists term : string,
           term ∈ parse_blocklist (blocklist_input Ex.plain_settings) /\
           Str.substring_of term (Str.lower (keyword r))) /\
    (forall r : KeywordRecord,
       r ∈ removed <->
       r ∈ impressions_filter (has_impressions Ex.mixed_frame)
             (min_impressions Ex.plain_settings)
             (position_filter (position_range Ex.plain_settings) (rows Ex.mixed_frame)) /\
       exists term : string,
         term ∈ parse_blocklist (blocklist_input Ex.plain_settings) /\
         Str.substring_of term (Str.lower (keyword r))) /\
    (length filtered + length removed =
     length (impressions_filter (has_impressions Ex.mixed_frame)
               (min_impressions Ex.plain_settings)
               (position_filter (position_range Ex.plain_settings)
                  (rows Ex.mixed_frame))))%nat.
Proof.
  assert (Forall (fun term => Re.literal term = true)
                 (parse_blocklist (blocklist_input Ex.plain_settings))) as Hlit
    by (vm_compute; repeat constructor).
  split; [exact Hlit|].
  exact (blocklist_plain_terms Ex.plain_settings Ex.mixed_frame Hlit).
Defined.

Lemma filter_none {A : Type} (f : A -> bool) (l : list A) :
  Forall (fun x => f x = false) l ->
  List.filter f l = [] /\ List.filter (fun x => negb (f x)) l = l.
Proof.
  induction 1 as [|x l Hx _ [IH1 IH2]]; simpl; [done|].
  by rewrite Hx, IH1, IH2.
Qed.

Lemma filter_all {A : Type} (f : A -> bool) (l : list A) :
  Forall (fun x => f x = true) l -> List.filter f l = l.
Proof. induction 1 as [|x l Hx _ IH]; simpl; [done | by rewrite Hx, IH]. Qed.

Lemma Forall_of_sublist {A : Type} (P : A -> Prop) (l k : list A) :
  l `sublist_of` k -> Forall P k -> Forall P l.
Proof.
  intros Hsub Hall. rewrite Forall_forall in *. intros x Hx.
  apply Hall. by eapply elem_of_sublist.
Qed.

Lemma filter_Forall {A : Type} (f : A -> bool) (l : list A) :
  Forall (fun x => f x = true) (List.filter f l).
Proof. apply Forall_forall. by intros x [_ Hx]%list_elem_of_In%filter_In. Qed.

Lemma apply_blocklist_rejects (str_contains : string -> option (string -> bool))
    (blocklist : list string) :
  forall filtered_df removed_so_far filtered removed : list KeywordRecord,
    apply_blocklist_with str_contains blocklist filtered_df removed_so_far
      = Some (filtered, removed) ->
    Forall (fun term =>
              exists test, str_contains term = Some test /\
                           Forall (fun r => keyword_hit test r = false) filtered)
           blocklist.
Proof.
  induction blocklist as [|term blocklist IH]; intros f rem f' rem' Hrun; [constructor|].
  simpl in Hrun. destruct (str_contains term) as [test|] eqn:Hterm; [|done].
  constructor; [|by eapply IH].
  exists test. split; [done|].
  apply apply_blocklist_sublist in Hrun.
  eapply Forall_of_sublist; [exact Hrun|].
  eapply Forall_impl; [apply filter_Forall|]. intros r Hr. by apply negb_true_iff.
Qed.

Lemma apply_blocklist_again (str_contains : string -> option (string -> bool))
    (blocklist : list string) (kept removed_so_far : list KeywordRecord) :
  Forall (fun term =>
            exists test, str_contains term = Some test /\
                         Forall (fun r => keyword_hit test r = false) kept)
         blocklist ->
  apply_blocklist_with str_contains blocklist kept removed_so_far
    = Some (kept, removed_so_far).
Proof.
  induction 1 as [|term blocklist (test & Hterm & Hmiss) _ IH]; [done|].
  simpl. rewrite Hterm. destruct (filter_none _ _ Hmiss) as [-> ->].
  by rewrite app_nil_r.
Qed.

(** X11: filtering is idempotent: running the filter stage again on its
    own filtered frame, with the same settings, keeps every row and
    removes nothing, whatever [str.contains] does. *)
Theorem filter_idempotent (str_contains : string -> option (string -> bool))
    (s : Settings) (df : DataFrame) (filtered removed : list KeywordRecord) :
  filter_keywords_with str_contains s df = Some (filtered, removed) ->
  filter_keywords_with str_contains s
    {| has_impressions := has_impressions df; rows := filtered |}
  = Some (filtered, []).
Proof.
  intros Hrun.
  assert (impressions_filter (has_impressions df) (min_impressions s)
            (position_filter (position_range s) filtered) = filtered) as Hpre.
  { assert (filtered `sublist_of`
              impressions_filter (has_impressions df) (min_impressions s)
                (position_filter (position_range s) (rows df))) as Hsub.
    { unfold filter_keywords_with in Hrun. destruct (Str.is_empty _).
      - by injection Hrun as <- _.
      - by apply apply_blocklist_sublist in Hrun. }
    unfold impressions_filter, position_filter in *.
    destruct (has_impressions df).
    - rewrite (filter_all _ filtered).
      + apply filter_all. eapply Forall_of_sublist; [exact Hsub | apply filter_Forall].
      + eapply Forall_of_sublist; [etrans; [exact Hsub | apply filter_sublist]|].
        apply filter_Forall.
    - apply filter_all. eapply Forall_of_sublist; [exact Hsub | apply filter_Forall]. }
  unfold filter_keywords_with in *. cbn [has_impressions rows]. rewrite Hpre.
  destruct (Str.is_empty (blocklist_input s)); [done|].
  apply apply_blocklist_again. by eapply apply_blocklist_rejects.
Qed.

Lemma filter_idempotent_witness :
  filter_keywords_with Re.str_contains Ex.plain_settings Ex.mixed_frame
    = Some ([Ex.road 6], [Ex.near_me]) /\
  filter_keywords_with Re.str_contains Ex.plain_settings
    {| has_impressions := has_impressions Ex.mixed_frame; rows := [Ex.road 6] |}
  = Some ([Ex.road 6], []).
Proof.
  assert (filter_keywords_with Re.str_contains Ex.plain_settings Ex.mixed_frame
          = Some ([Ex.road 6], [Ex.near_me])) as Hrun by reflexivity.
  split; [exact Hrun|].
  exact (filter_idempotent Re.str_contains Ex.plain_settings Ex.mixed_frame _ _ Hrun).
Defined.

(** X12: the "In Striking Distance" metric shown above the report counts
    the rows in the position range before the impressions filter and the
    blocklist are applied: it is at least the number of rows kept plus
    the number of rows removed by the blocklist, equal to it when the
    frame has no impressions column, and at most the total number of
    keywords. *)
Theorem metric_bounds_report (str_contains : string -> option (string -> bool))
    (s : Settings) (df : DataFrame) (filtered removed : list KeywordRecord) :
  filter_keywords_with str_contains s df = Some (filtered, removed) ->
  (length filtered + length removed <= in_striking_distance s df)%nat /\
  (has_impressions df = false ->
   (length filtered + length removed = in_striking_distance s df)%nat) /\
  (in_striking_distance s df <= total_keywords df)%nat.
Proof.
  intros Hrun%filter_keywords_moves. apply Permutation_length in Hrun.
  rewrite length_app in Hrun. rewrite Hrun.
  unfold in_striking_distance, total_keywords, impressions_filter, position_filter.
  split; [|split].
  - destruct (has_impressions df); [|done]. apply sublist_length, filter_sublist.
  - by intros ->.
  - apply sublist_length, filter_sublist.
Qed.

Lemma metric_bounds_report_witness :
  filter_keywords_with Re.str_contains Ex.plain_settings Ex.mixed_frame
    = Some ([Ex.road 6], [Ex.near_me]) /\
  ((length [Ex.road 6] + length [Ex.near_me]
      <= in_striking_distance Ex.plain_settings Ex.mixed_frame)%nat /\
   (has_impressions Ex.mixed_frame = false ->
    (length [Ex.road 6] + length [Ex.near_me]
       = in_striking_distance Ex.plain_settings Ex.mixed_frame)%nat) /\
   (in_striking_distance Ex.plain_settings Ex.mixed_frame
      <= total_keywords Ex.mixed_frame)%nat).
Proof.
  assert (filter_keywords_with Re.str_contains Ex.plain_settings Ex.mixed_frame
          = Some ([Ex.road 6], [Ex.near_me])) as Hrun by reflexivity.
  split; [exact Hrun|].
  exact (metric_bounds_report Re.str_contains Ex.plain_settings Ex.mixed_frame _ _ Hrun).
Defined.

(** ** Reading the blocklist *)

Lemma lstrip_lower (s : string) : Str.lstrip (Str.lower s) = Str.lower (Str.lstrip s).
Proof.
  induction s as [|c s IH]; [done|]. cbn [Str.lower Str.lstrip].
  rewrite is_space_lower_char. by destruct (Str.is_space c).
Qed.

Lemma lower_empty (s : string) : Str.lower s = EmptyString <-> s = EmptyString.
Proof. by destruct s. Qed.

Lemma rstrip_lower (s : string) : Str.rstrip (Str.lower s) = Str.lower (Str.rstrip s).
Proof.
  induction s as [|c s IH]; [done|]. cbn [Str.lower Str.rstrip]. rewrite IH.
  destruct (Str.rstrip s) as [|d t]; cbn [Str.lower].
  - rewrite is_space_lower_char. by destruct (Str.is_space c).
  - done.
Qed.

Lemma strip_lower (s : string) : Str.strip (Str.lower s) = Str.lower (Str.strip s).
Proof. unfold Str.strip. by rewrite lstrip_lower, rstrip_lower. Qed.

Lemma rstrip_idem (s : string) : Str.rstrip (Str.rstrip s) = Str.rstrip s.
Proof.
  induction s as [|c s IH]; [done|]. cbn [Str.rstrip].
  destruct (Str.rstrip s) as [|d t] eqn:Hs.
  - destruct (Str.is_space c) eqn:Hc; [done|]. cbn [Str.rstrip]. by rewrite Hc.
  - cbn [Str.rstrip] in *. by rewrite IH.
Qed.

Lemma rstrip_head (c : ascii) (s : string) :
  Str.is_space c = false ->
  exists t : string, Str.rstrip (String c s) = String c t.
Proof.
  intros Hc. cbn [Str.rstrip]. destruct (Str.rstrip s) as [|d t].
  - rewrite Hc. by eexists.
  - by eexists.
Qed.

Lemma lstrip_head (s : string) :
  Str.lstrip s = EmptyString \/
  exists (c : ascii) (t : string), Str.lstrip s = String c t /\ Str.is_space c = false.
Proof.
  induction s as [|c s IH]; [by left|]. cbn [Str.lstrip].
  destruct (Str.is_space c) eqn:Hc; [done|]. right. by exists c, s.
Qed.

Lemma lstrip_strip (s : string) : Str.lstrip (Str.strip s) = Str.strip s.
Proof.
  unfold Str.strip. destruct (lstrip_head s) as [->|(c & t & -> & Hc)]; [done|].
  destruct (rstrip_head c t Hc) as [u ->]. cbn [Str.lstrip]. by rewrite Hc.
Qed.

(** [strip] leaves a stripped string alone. *)
Lemma strip_idem (s : string) : Str.strip (Str.strip s) = Str.strip s.
Proof.
  unfold Str.strip at 1. rewrite lstrip_strip. unfold Str.strip. apply rstrip_idem.
Qed.

(** X13: every term read from the blocklist box is non-empty, in lower
    case, and free of leading and trailing white space; blank lines yield
    no term. *)
Theorem parse_blocklist_terms (blocklist_input term : string) :
  term ∈ parse_blocklist blocklist_input ->
  term <> EmptyString /\ Str.lower term = term /\ Str.strip term = term /\
  exists line : string,
    line ∈ Str.split Re.newline blocklist_input /\
    term = Str.lower (Str.strip line).
Proof.
  unfold parse_blocklist.
  intros (line & <- & [Hline Hfull]%filter_In)%list_elem_of_In%in_map_iff.
  apply negb_true_iff in Hfull.
  split; [|split; [|split]].
  - intros Hempty. apply (proj1 (lower_empty _)) in Hempty. by rewrite Hempty in Hfull.
  - apply lower_idem.
  - by rewrite strip_lower, strip_idem.
  - exists line. split; [by apply list_elem_of_In | done].
Qed.

Lemma parse_blocklist_terms_witness :
  "near me" ∈ parse_blocklist ("  Near ME  " +:+ String Re.newline "   ") /\
  ("near me" <> EmptyString /\ Str.lower "near me" = "near me" /\
   Str.strip "near me" = "near me" /\
   exists line : string,
     line ∈ Str.split Re.newline ("  Near ME  " +:+ String Re.newline "   ") /\
     "near me" = Str.lower (Str.strip line)).
Proof.
  assert ("near me" ∈ parse_blocklist ("  Near ME  " +:+ String Re.newline "   ")) as Hin
    by (vm_compute; left).
  split; [exact Hin|].
  exact (parse_blocklist_terms _ _ Hin).
Defined.

Lemma split_lower (s : string) :
  Str.split Re.newline (Str.lower s) = List.map Str.lower (Str.split Re.newline s).
Proof.
  induction s as [|c s IH]; [done|]. cbn [Str.lower Str.split].
  rewrite lower_char_newline, IH.
  destruct (Ascii.eqb c Re.newline); [done|].
  by destruct (Str.split Re.newline s).
Qed.

Lemma filter_map_comm {A B : Type} (f : B -> bool) (g : A -> B) (l : list A) :
  List.filter f (List.map g l) = List.map g (List.filter (fun x => f (g x)) l).
Proof.
  induction l as [|x l IH]; simpl; [done|].
  destruct (f (g x)); simpl; by rewrite IH.
Qed.

Lemma parse_blocklist_lower (blocklist_input : string) :
  parse_blocklist (Str.lower blocklist_input) = parse_blocklist blocklist_input.
Proof.
  unfold parse_blocklist. rewrite split_lower, filter_map_comm, List.map_map.
  rewrite (List.filter_ext _ (fun term => negb (Str.is_empty (Str.strip term)))).
  - apply List.map_ext. intros line. by rewrite strip_lower, lower_idem.
  - intros line. by rewrite strip_lower, is_empty_lower.
Qed.

(** X14: the blocklist box is read without regard to case: two inputs
    that agree up to the case of their letters give the same terms, and
    so the same filtered and removed rows. *)
Theorem blocklist_case_blind (str_contains : string -> option (string -> bool))
    (s s' : Settings) (df : DataFrame) :
  Str.lower (blocklist_input s) = Str.lower (blocklist_input s') ->
  position_range s = position_range s' ->
  min_impressions s = min_impressions s' ->
  parse_blocklist (blocklist_input s) = parse_blocklist (blocklist_input s') /\
  filter_keywords_with str_contains s df = filter_keywords_with str_contains s' df.
Proof.
  intros Hcase Hrange Hmin.
  assert (parse_blocklist (blocklist_input s) = parse_blocklist (blocklist_input s'))
    as Hterms by (by rewrite <- (parse_blocklist_lower (blocklist_input s)), Hcase,
                       parse_blocklist_lower).
  split; [done|]. unfold filter_keywords_with.
  by rewrite (lower_eq_is_empty _ _ Hcase), Hterms, Hrange, Hmin.
Qed.

Lemma blocklist_case_blind_witness :
  Str.lower (blocklist_input Ex.plain_settings)
    = Str.lower (blocklist_input Ex.shouting_settings) /\
  position_range Ex.plain_settings = position_range Ex.shouting_settings /\
  min_impressions Ex.plain_settings = min_impressions Ex.shouting_settings /\
  (parse_blocklist (blocklist_input Ex.plain_settings)
     = parse_blocklist (blocklist_input Ex.shouting_settings) /\
   filter_keywords_with Re.str_contains Ex.plain_settings Ex.mixed_frame
     = filter_keywords_with Re.str_contains Ex.shouting_settings Ex.mixed_frame).
Proof.
  split; [reflexivity|]. split; [reflexivity|]. split; [reflexivity|].
  apply (blocklist_case_blind Re.str_contains Ex.plain_settings Ex.shouting_settings
           Ex.mixed_frame); reflexivity.
Defined.

(** ** More on crawling and matching *)

Lemma entry_of_status (world : string -> FetchOutcome) (u : string) :
  String.eqb (status (entry_of world u)) "success" = fetched world u.
Proof. unfold entry_of, crawl_url, fetched. by destruct (world u). Qed.

Lemma bucket_of_not_found (crawl_results : gmap string PageContent) (r : KeywordRecord) :
  bucket_of crawl_results r = NotFound <->
  match crawl_results !! url r with
  | Some page => String.eqb (status page) "success" = false
  | None => True
  end.
Proof.
  unfold bucket_of. destruct (crawl_results !! url r) as [page|]; [|done].
  destruct (String.eqb (status page) "success"); simpl; [|done].
  by destruct (check_keyword_presence _ _ && _ && _).
Qed.

(** X15: when the pages are crawled, a filtered record lands in the
    not-found bucket exactly when its URL is beyond the cap or its fetch
    did not succeed (a handled request error or any other exception); in
    particular every record of a URL whose fetch failed is listed in the
    not-found frame of the report. *)
Theorem failed_fetch_not_found (argsort : list Z -> list nat)
    (as_completed : list string -> list string) (s : Settings)
    (world : string -> FetchOutcome) (has : bool)
    (filtered_df removed : list KeywordRecord) :
  completes_each_once as_completed ->
  crawl_option s = CrawlUrlsAutomatically ->
  let unique_urls := unique_urls_of (max_urls s) filtered_df in
  let crawl_results := crawl_step as_completed (crawl_option s) world unique_urls in
  (forall r : KeywordRecord,
     bucket_of crawl_results r = NotFound <->
     url r ∉ unique_urls \/ fetched world (url r) = false) /\
  (forall r : KeywordRecord,
     r ∈ filtered_df -> fetched world (url r) = false ->
     not_found_row r ∈
       urls_not_found (analyse argsort as_completed s world has filtered_df removed)).
Proof.
  intros Hdone Hopt unique_urls crawl_results.
  assert (forall r : KeywordRecord,
            bucket_of crawl_results r = NotFound <->
            url r ∉ unique_urls \/ fetched world (url r) = false) as Hbucket.
  { intros r. rewrite bucket_of_not_found. unfold crawl_results. rewrite Hopt. simpl.
    rewrite crawl_all_lookup.
    destruct (decide (url r ∈ as_completed unique_urls)) as [Hin|Hout].
    - rewrite entry_of_status. rewrite (Hdone unique_urls) in Hin. tauto.
    - rewrite (Hdone unique_urls) in Hout. tauto. }
  split; [done|]. intros r Hr Hfailed.
  rewrite analyse_urls_not_found, urls_not_found_bucket.
  apply list_elem_of_fmap_2, in_bucket_elem. split; [done|].
  apply Hbucket. by right.
Qed.

Lemma failed_fetch_not_found_witness :
  completes_each_once id /\
  crawl_option Ex.settings = CrawlUrlsAutomatically /\
  (let unique_urls := unique_urls_of (max_urls Ex.settings) Ex.three_rows in
   let crawl_results := crawl_step id (crawl_option Ex.settings) Ex.flaky unique_urls in
   (forall r : KeywordRecord,
      bucket_of crawl_results r = NotFound <->
      url r ∉ unique_urls \/ fetched Ex.flaky (url r) = false) /\
   (forall r : KeywordRecord,
      r ∈ Ex.three_rows -> fetched Ex.flaky (url r) = false ->
      not_found_row r ∈
        urls_not_found (analyse insertion_argsort id Ex.settings Ex.flaky true
                          Ex.three_rows []))).
Proof.
  assert (completes_each_once id) as Hdone by (intros urls; reflexivity).
  split; [exact Hdone|]. split; [reflexivity|].
  exact (failed_fetch_not_found insertion_argsort id Ex.settings Ex.flaky true
           Ex.three_rows [] Hdone eq_refl).
Defined.

Example failed_fetch_not_found_run :
  urls_not_found (analyse insertion_argsort id Ex.settings Ex.flaky true Ex.three_rows [])
  = [ {| nf_url := "https://example.com/b"; nf_keyword := "road shoes" |} ].
Proof. by vm_compute. Qed.

Lemma unique_elem_of (l : list string) (x : string) : x ∈ unique l <-> x ∈ l.
Proof.
  unfold unique. rewrite unique_from_elem_of, elem_of_nil. tauto.
Qed.

(** X16: with sample content every URL within the cap gets a page, so a
    filtered record is not found exactly when its URL is beyond the cap;
    when the filtered frame has no more distinct URLs than the cap, the
    not-found frame of the report is empty. *)
Theorem sample_content_not_found (argsort : list Z -> list nat)
    (as_completed : list string -> list string) (s : Settings)
    (world : string -> FetchOutcome) (has : bool)
    (filtered_df removed : list KeywordRecord) :
  crawl_option s = UseSampleContent ->
  let unique_urls := unique_urls_of (max_urls s) filtered_df in
  let crawl_results := crawl_step as_completed (crawl_option s) world unique_urls in
  (forall r : KeywordRecord,
     bucket_of crawl_results r = NotFound <-> url r ∉ unique_urls) /\
  ((length (unique (List.map url filtered_df)) <= max_urls s)%nat ->
   urls_not_found (analyse argsort as_completed s world has filtered_df removed) = []).
Proof.
  intros Hopt unique_urls crawl_results.
  assert (forall r : KeywordRecord,
            bucket_of crawl_results r = NotFound <-> url r ∉ unique_urls) as Hbucket.
  { intros r. rewrite bucket_of_not_found. unfold crawl_results. rewrite Hopt. simpl.
    rewrite sample_all_lookup.
    destruct (decide (url r ∈ unique_urls)); [split; [done | tauto] | tauto]. }
  split; [done|]. intros Hfew.
  rewrite analyse_urls_not_found, urls_not_found_bucket. fold unique_urls crawl_results.
  unfold in_bucket.
  assert (Forall (fun r => bucket_eqb (bucket_of crawl_results r) NotFound = false)
                 filtered_df) as Hnone; [|by rewrite (proj1 (filter_none _ _ Hnone))].
  apply Forall_forall. intros r Hr.
  destruct (bucket_of crawl_results r) eqn:Hb; try done.
  apply Hbucket in Hb. destruct Hb.
  unfold unique_urls, unique_urls_of. rewrite take_ge by done.
  apply unique_elem_of, list_elem_of_In, in_map. by apply list_elem_of_In.
Qed.

Lemma sample_content_not_found_witness :
  crawl_option Ex.sample_settings = UseSampleContent /\
  (let unique_urls := unique_urls_of (max_urls Ex.sample_settings) Ex.three_rows in
   let crawl_results :=
     crawl_step id (crawl_option Ex.sample_settings) Ex.flaky unique_urls in
   (forall r : KeywordRecord,
      bucket_of crawl_results r = NotFound <-> url r ∉ unique_urls) /\
   ((length (unique (List.map url Ex.three_rows)) <= max_urls Ex.sample_settings)%nat ->
    urls_not_found (analyse insertion_argsort id Ex.sample_settings Ex.flaky true
                      Ex.three_rows []) = [])).
Proof.
  split; [reflexivity|].
  exact (sample_content_not_found insertion_argsort id Ex.sample_settings Ex.flaky true
           Ex.three_rows [] eq_refl).
Defined.

(** X17: the crawl budget: the URLs handed to the crawl are pairwise
    distinct, at most [max_urls] many, each the URL of some filtered
    record; and when the filtered frame has no more distinct URLs than
    the cap, every record's URL is among them. *)
Theorem crawl_budget (max_urls : nat) (filtered_df : list KeywordRecord) :
  NoDup (unique_urls_of max_urls filtered_df) /\
  (length (unique_urls_of max_urls filtered_df) <= max_urls)%nat /\
  (forall u : string, u ∈ unique_urls_of max_urls filtered_df ->
     exists r : KeywordRecord, r ∈ filtered_df /\ url r = u) /\
  ((length (unique (List.map url filtered_df)) <= max_urls)%nat ->
   forall r : KeywordRecord, r ∈ filtered_df -> url r ∈ unique_urls_of max_urls filtered_df).
Proof.
  split; [apply unique_urls_NoDup|]. split; [|split].
  - unfold unique_urls_of. rewrite length_take. lia.
  - intros u Hu. unfold unique_urls_of in Hu.
    apply elem_of_take in Hu as (i & Hi & _).
    apply list_elem_of_lookup_2, unique_elem_of, list_elem_of_In, in_map_iff in Hi
      as (r & <- & Hr).
    exists r. split; [by apply list_elem_of_In | done].
  - intros Hfew r Hr. unfold unique_urls_of. rewrite take_ge by done.
    apply unique_elem_of, list_elem_of_In, in_map. by apply list_elem_of_In.
Qed.

(** ** The matched rows *)

Lemma results_elem (crawl_results : gmap string PageContent)
    (filtered_df : list KeywordRecord) (m : MatchedRecord) :
  m ∈ (check_keywords crawl_results filtered_df).1 ->
  exists r : KeywordRecord, r ∈ filtered_df /\ check_row crawl_results r = inl m.
Proof.
  induction filtered_df as [|r rest IH]; [by intros ?%elem_of_nil|].
  rewrite check_keywords_cons.
  destruct (check_row crawl_results r) as [m'|missing] eqn:Hrow; cbn [fst].
  - intros [->|Hm]%elem_of_cons.
    + exists r. split; [left | done].
    + destruct (IH Hm) as (r' & Hr' & Hrow'). exists r'. split; [by right | done].
  - intros Hm. destruct (IH Hm) as (r' & Hr' & Hrow'). exists r'. split; [by right | done].
Qed.

Lemma substring_length_le (n : nat) (s : string) :
  (String.length (String.substring 0 n s) <= n)%nat.
Proof.
  revert s. induction n as [|n IH]; intros [|c s]; simpl; try lia.
  specialize (IH s). lia.
Qed.

Lemma substring_prefix (n : nat) (s : string) :
  exists rest : string, s = String.substring 0 n s +:+ rest.
Proof.
  revert s. induction n as [|n IH]; intros [|c s].
  - by exists EmptyString.
  - by exists (String c s).
  - by exists EmptyString.
  - destruct (IH s) as [rest Hrest]. exists rest.
    exact (f_equal (String c) Hrest).
Qed.

(** X18: every matched row stems from a filtered record whose URL has a
    page fetched with success; its three signals are the presence checks
    of the record's keyword against that page, its [page_title] is the
    first 100 characters at most of the page title, and its
    [optimization_score] is the number of signals that hold: between 0
    and 3, and 3 exactly when all three hold. *)
Theorem matched_rows (crawl_results : gmap string PageContent)
    (filtered_df : list KeywordRecord) (m : MatchedRecord) :
  m ∈ (check_keywords crawl_results filtered_df).1 ->
  base m ∈ filtered_df /\
  (exists page : PageContent,
     crawl_results !! url (base m) = Some page /\
     status page = "success" /\
     in_title m = check_keyword_presence (keyword (base m)) (title page) /\
     in_h1 m = check_keyword_presence (keyword (base m)) (h1 page) /\
     in_content m = check_keyword_presence (keyword (base m)) (content page) /\
     exists rest : string, title page = page_title m +:+ rest) /\
  (String.length (page_title m) <= 100)%nat /\
  optimization_score m
    = bool_to_Z (in_title m) + bool_to_Z (in_h1 m) + bool_to_Z (in_content m) /\
  0 <= optimization_score m <= 3 /\
  (optimization_score m = 3 <-> all_present m = true).
Proof.
  intros (r & Hr & Hrow)%results_elem. unfold check_row in Hrow.
  destruct (crawl_results !! url r) as [page|] eqn:Hpage; [|done].
  destruct (String.eqb (status page) "success") eqn:Hstatus; [|done].
  injection Hrow as <-. cbn [base in_title in_h1 in_content page_title optimization_score].
  apply String.eqb_eq in Hstatus.
  split; [done|]. split.
  { exists page. repeat split; try done. apply substring_prefix. }
  split; [apply substring_length_le|]. split; [done|].
  unfold all_present. cbn [in_title in_h1 in_content].
  destruct (check_keyword_presence (keyword r) (title page)),
           (check_keyword_presence (keyword r) (h1 page)),
           (check_keyword_presence (keyword r) (content page)); cbn; split; try lia;
    split; intros; (done || lia).
Qed.

Lemma matched_rows_witness :
  {| base := Ex.hike 8; in_title := false; in_h1 := false; in_content := false;
     page_title := "Trail shoes"; optimization_score := 0 |}
    ∈ (check_keywords Ex.crawled Ex.three_rows).1 /\
  let m := {| base := Ex.hike 8; in_title := false; in_h1 := false; in_content := false;
              page_title := "Trail shoes"; optimization_score := 0 |} in
  base m ∈ Ex.three_rows /\
  (exists page : PageContent,
     Ex.crawled !! url (base m) = Some page /\
     status page = "success" /\
     in_title m = check_keyword_presence (keyword (base m)) (title page) /\
     in_h1 m = check_keyword_presence (keyword (base m)) (h1 page) /\
     in_content m = check_keyword_presence (keyword (base m)) (content page) /\
     exists rest : string, title page = page_title m +:+ rest) /\
  (String.length (page_title m) <= 100)%nat /\
  optimization_score m
    = bool_to_Z (in_title m) + bool_to_Z (in_h1 m) + bool_to_Z (in_content m) /\
  0 <= optimization_score m <= 3 /\
  (optimization_score m = 3 <-> all_present m = true).
Proof.
  assert ({| base := Ex.hike 8; in_title := false; in_h1 := false; in_content := false;
             page_title := "Trail shoes"; optimization_score := 0 |}
            ∈ (check_keywords Ex.crawled Ex.three_rows).1) as Hin
    by (vm_compute; right; left).
  split; [exact Hin|].
  exact (matched_rows Ex.crawled Ex.three_rows _ Hin).
Defined.

(** X19: a page fetched with success but with empty title, H1 and body is
    not treated as not found: the record is matched with all three
    signals false and optimization score 0, lands in the
    striking-distance bucket, and its opportunity score is at least 30. *)
Theorem empty_page_is_scored (crawl_results : gmap string PageContent)
    (r : KeywordRecord) (page : PageContent) (has : bool) :
  crawl_results !! url r = Some page ->
  status page = "success" ->
  title page = EmptyString -> h1 page = EmptyString -> content page = EmptyString ->
  bucket_of crawl_results r = StrikingDistance /\
  exists m : MatchedRecord,
    check_row crawl_results r = inl m /\ base m = r /\
    in_title m = false /\ in_h1 m = false /\ in_content m = false /\
    optimization_score m = 0 /\
    30 <= o_score (opportunity_of has m).
Proof.
  intros Hpage Hstatus Htitle Hh1 Hcontent.
  unfold bucket_of, check_row. rewrite Hpage, Hstatus, Htitle, Hh1, Hcontent.
  assert (check_keyword_presence (keyword r) EmptyString = false) as ->
    by (unfold check_keyword_presence; by destruct (keyword r)).
  split; [done|]. eexists. split; [reflexivity|]. cbn.
  repeat split. rewrite opportunity_of_score, score_rules_value. cbn.
  destruct ((3 <=? position r) && (position r <=? 5)),
           ((6 <=? position r) && (position r <=? 10)),
           ((11 <=? position r) && (position r <=? 20)),
           (1000 <? row_get_impressions has r); lia.
Qed.

Lemma empty_page_is_scored_witness :
  ({[ "https://example.com/a" := Ex.blank_page ]} : gmap string PageContent)
    !! url (Ex.trail 30) = Some Ex.blank_page /\
  status Ex.blank_page = "success" /\
  title Ex.blank_page = EmptyString /\ h1 Ex.blank_page = EmptyString /\
  content Ex.blank_page = EmptyString /\
  (bucket_of {[ "https://example.com/a" := Ex.blank_page ]} (Ex.trail 30)
     = StrikingDistance /\
   exists m : MatchedRecord,
     check_row {[ "https://example.com/a" := Ex.blank_page ]} (Ex.trail 30) = inl m /\
     base m = Ex.trail 30 /\
     in_title m = false /\ in_h1 m = false /\ in_content m = false /\
     optimization_score m = 0 /\
     30 <= o_score (opportunity_of true m)).
Proof.
  assert (({[ "https://example.com/a" := Ex.blank_page ]} : gmap string PageContent)
            !! url (Ex.trail 30) = Some Ex.blank_page) as Hpage by reflexivity.
  split; [exact Hpage|]. do 4 (split; [reflexivity|]).
  exact (empty_page_is_scored _ (Ex.trail 30) Ex.blank_page true Hpage
           eq_refl eq_refl eq_refl eq_refl).
Defined.

(** ** The optimization gaps chart *)

Lemma gaps_count (sd : list ScoredRecord) :
  Forall (fun x => optimization_score (matched x)
                   = bool_to_Z (in_title (matched x)) + bool_to_Z (in_h1 (matched x))
                     + bool_to_Z (in_content (matched x))) sd ->
  Z.of_nat (missing_in_title sd + missing_in_h1 sd + missing_in_content sd)
  = sum_Z ((fun x => 3 - optimization_score (matched x)) <$> sd).
Proof.
  unfold missing_in_title, missing_in_h1, missing_in_content.
  induction 1 as [|x sd Hx _ IH]; [done|].
  cbn [List.filter fmap list_fmap sum_Z foldr]. fold (sum_Z ((fun x => 3 - optimization_score (matched x)) <$> sd)).
  rewrite <- IH, Hx.
  destruct (in_title (matched x)), (in_h1 (matched x)), (in_content (matched x));
    cbn [negb length bool_to_Z]; lia.
Qed.

Lemma gaps_cover (sd : list ScoredRecord) :
  Forall (fun x => all_present (matched x) = false) sd ->
  (length sd <= missing_in_title sd + missing_in_h1 sd + missing_in_content sd)%nat.
Proof.
  unfold missing_in_title, missing_in_h1, missing_in_content, all_present.
  induction 1 as [|x sd Hx _ IH]; [done|]. cbn [List.filter].
  destruct (in_title (matched x)), (in_h1 (matched x)), (in_content (matched x));
    try discriminate Hx; cbn [negb length]; lia.
Qed.

(** X20: in the optimization gaps chart drawn from the final
    striking-distance frame, each of the three counts is at most the
    number of rows, the three counts together are at least the number of
    rows (every row misses the keyword somewhere), and their sum is the
    total of [3 - optimization_score] over the rows. *)
Theorem gaps_chart (argsort : list Z -> list nat)
    (as_completed : list string -> list string) (s : Settings)
    (world : string -> FetchOutcome) (has : bool)
    (filtered_df removed : list KeywordRecord) :
  argsort_permutes argsort ->
  let final :=
    striking_distance (analyse argsort as_completed s world has filtered_df removed) in
  (missing_in_title final <= length final)%nat /\
  (missing_in_h1 final <= length final)%nat /\
  (missing_in_content final <= length final)%nat /\
  (length final
     <= missing_in_title final + missing_in_h1 final + missing_in_content final)%nat /\
  Z.of_nat (missing_in_title final + missing_in_h1 final + missing_in_content final)
    = sum_Z ((fun x => 3 - optimization_score (matched x)) <$> final).
Proof.
  intros Hperm final.
  assert (Forall (fun x => matched x
                           ∈ (check_keywords
                                (crawl_step as_completed (crawl_option s) world
                                   (unique_urls_of (max_urls s) filtered_df))
                                filtered_df).1 /\
                           all_present (matched x) = false) final) as Hrows.
  { apply Forall_forall. intros x Hx. subst final.
    rewrite analyse_striking_distance, with_opportunities_perm in Hx by done.
    apply merge_left_elem in Hx as [Hl _].
    rewrite striking_distance_of_perm in Hl by done.
    apply list_elem_of_In, filter_In in Hl as [Hl Hall].
    split; [by apply list_elem_of_In | by destruct (all_present (matched x))]. }
  split; [apply sublist_length, filter_sublist|].
  split; [apply sublist_length, filter_sublist|].
  split; [apply sublist_length, filter_sublist|].
  split.
  - apply gaps_cover. eapply Forall_impl; [exact Hrows|]. by intros x [_ ?].
  - apply gaps_count. eapply Forall_impl; [exact Hrows|]. intros x [Hx _].
    apply results_elem in Hx as (r & _ & Hrow). unfold check_row in Hrow.
    destruct (_ !! url r) as [page|]; [|done].
    destruct (String.eqb (status page) "success"); [|done].
    by injection Hrow as <-.
Qed.

Lemma gaps_chart_witness :
  argsort_permutes insertion_argsort /\
  (let final :=
     striking_distance (analyse insertion_argsort id Ex.settings Ex.shop true
                          [Ex.trail 5; Ex.road 4; Ex.hike 8] []) in
   (missing_in_title final <= length final)%nat /\
   (missing_in_h1 final <= length final)%nat /\
   (missing_in_content final <= length final)%nat /\
   (length final
      <= missing_in_title final + missing_in_h1 final + missing_in_content final)%nat /\
   Z.of_nat (missing_in_title final + missing_in_h1 final + missing_in_content final)
     = sum_Z ((fun x => 3 - optimization_score (matched x)) <$> final)).
Proof.
  split; [exact insertion_argsort_permutes|].
  exact (gaps_chart insertion_argsort id Ex.settings Ex.shop true
           [Ex.trail 5; Ex.road 4; Ex.hike 8] [] insertion_argsort_permutes).
Defined.

Example gaps_chart_run :
  let final :=
    striking_distance (analyse insertion_argsort id Ex.settings Ex.shop true
                         [Ex.trail 5; Ex.road 4; Ex.hike 8] []) in
  (missing_in_title final, missing_in_h1 final, missing_in_content final)
  = (3%nat, 1%nat, 1%nat).
Proof. by vm_compute. Qed.

(** ** The page content *)

Lemma words_solid (s : string) :
  Forall (fun w => w <> EmptyString /\ Page.no_space w = true) (Page.words s).
Proof.
  induction s as [|c s IH]; [constructor|]. cbn [Page.words].
  destruct (Str.is_space c) eqn:Hc; [done|].
  destruct s as [|d s]; [by repeat constructor; cbn; rewrite ?Hc|].
  destruct (Str.is_space d) eqn:Hd.
  - constructor; [|done]. split; [done | by cbn; rewrite Hc].
  - destruct (Page.words (String d s)) as [|w ws].
    + repeat constructor; [done | by cbn; rewrite Hc].
    + apply Forall_cons in IH as [[Hw Hsolid] Hws].
      constructor; [|done]. split; [done | by cbn; rewrite Hc, Hsolid].
Qed.

Lemma blanks_single_solid_app (w u : string) :
  Page.no_space w = true ->
  Page.blanks_single (w +:+ u) = Page.blanks_single u.
Proof.
  induction w as [|c w IH]; [done|]. cbn [Page.no_space].
  intros [Hc Hw]%andb_true_iff. apply negb_true_iff in Hc.
  change (String c w +:+ u) with (String c (w +:+ u)). cbn [Page.blanks_single].
  rewrite Hc. by apply IH.
Qed.

Lemma solid_leading (w u : string) :
  w <> EmptyString -> Page.no_space w = true ->
  Page.no_leading_space (w +:+ u) = true /\ w +:+ u <> EmptyString.
Proof.
  destruct w as [|c w]; [done|]. cbn [Page.no_space].
  intros _ [Hc _]%andb_true_iff. by split.
Qed.

(** Words joined by single blanks. *)
Lemma join_words (ws : list string) :
  Forall (fun w => w <> EmptyString /\ Page.no_space w = true) ws ->
  Page.blanks_single (Str.join " " ws) = true /\
  Page.no_leading_space (Str.join " " ws) = true /\
  (ws <> [] -> Str.join " " ws <> EmptyString).
Proof.
  induction 1 as [|w ws [Hw Hsolid] Hws IH]; [done|].
  destruct IH as (IH1 & IH2 & IH3). cbn [Str.join].
  destruct ws as [|w' ws].
  - assert (w +:+ EmptyString = w) as Hnil
      by (clear; induction w as [|c w IHw]; [done | exact (f_equal (String c) IHw)]).
    split; [|split; [|done]].
    + rewrite <- Hnil. by rewrite blanks_single_solid_app.
    + destruct w as [|c w]; [done|]. cbn in *.
      by apply andb_true_iff in Hsolid as [? _].
  - set (rest := Str.join " " (w' :: ws)) in *.
    destruct (solid_leading w (" " +:+ rest) Hw Hsolid) as [Hlead Hfull].
    split; [|split; [done | by intros _]].
    rewrite blanks_single_solid_app by done.
    change (" " +:+ rest) with (String " " rest). cbn [Page.blanks_single].
    assert (rest <> EmptyString) as Hrest by (by apply IH3).
    destruct rest as [|d rest']; [done|]. cbn in IH2. rewrite IH2.
    change (Str.is_space " ") with true. cbn. exact IH1.
Qed.

Lemma collapse_shape (raw : string) :
  Page.blanks_single (Page.collapse raw) = true /\
  Page.no_leading_space (Page.collapse raw) = true.
Proof.
  unfold Page.collapse. destruct (join_words _ (words_solid raw)) as (H1 & H2 & _).
  by split.
Qed.

Lemma blanks_single_prefix (p rest : string) :
  Page.blanks_single (p +:+ rest) = true -> Page.blanks_single p = true.
Proof.
  induction p as [|c p IH]; [done|].
  change (String c p +:+ rest) with (String c (p +:+ rest)). cbn [Page.blanks_single].
  intros [Hc Hp]%andb_true_iff. rewrite (IH Hp), andb_true_r.
  destruct (Str.is_space c); [|done].
  apply andb_true_iff in Hc as [-> Hnext]. cbn.
  destruct p as [|d p]; [done | exact Hnext].
Qed.

Lemma blanks_single_suffix (p rest : string) :
  Page.blanks_single (p +:+ rest) = true -> Page.blanks_single rest = true.
Proof.
  induction p as [|c p IH]; [done|].
  change (String c p +:+ rest) with (String c (p +:+ rest)). cbn [Page.blanks_single].
  intros [_ Hp]%andb_true_iff. by apply IH.
Qed.

Lemma blanks_single_no_double (s : string) :
  Page.blanks_single s = true -> ~ Str.substring_of "  " s.
Proof.
  intros Hs (pre & post & ->).
  apply blanks_single_suffix in Hs. by cbn in Hs.
Qed.

Lemma blanks_single_only_blank (s : string) (c : ascii) :
  Page.blanks_single s = true ->
  Str.is_space c = true -> c <> " "%char ->
  ~ Str.substring_of (String c EmptyString) s.
Proof.
  intros Hs Hc Hne (pre & post & ->).
  apply blanks_single_suffix in Hs.
  change (String c EmptyString +:+ post) with (String c post) in Hs.
  cbn [Page.blanks_single] in Hs. rewrite Hc in Hs.
  apply andb_true_iff in Hs as [[Heq _]%andb_true_iff _].
  by apply Ascii.eqb_eq in Heq.
Qed.

Lemma no_leading_space_prefix (p rest : string) :
  p <> EmptyString ->
  Page.no_leading_space (p +:+ rest) = true -> Page.no_leading_space p = true.
Proof. by destruct p. Qed.

Lemma content_shape (fetch : string -> Page.Response) (url : string) (page : PageContent) :
  crawl_url (Page.world_of fetch) url = inl page ->
  Page.blanks_single (content page) = true /\
  Page.no_leading_space (content page) = true.
Proof.
  unfold crawl_url, Page.world_of.
  destruct (fetch url) as [p|msg|msg]; intros Hpage; [| |done];
    injection Hpage as <-; cbn [content]; [|done].
  unfold Str.slice_to, Page.extract_content.
  destruct (Page.body p) as [raw|].
  2: { assert (forall n, String.substring 0 n EmptyString = EmptyString) as ->
         by (by intros [|?]). done. }
  destruct (collapse_shape raw) as [Hshape Hlead].
  destruct (substring_prefix 5000 (Page.collapse raw)) as [rest Hrest].
  rewrite Hrest in Hshape, Hlead. split; [by eapply blanks_single_prefix|].
  destruct (String.substring 0 5000 (Page.collapse raw)) eqn:Hsub; [done|].
  by eapply no_leading_space_prefix.
Qed.

(** X21: whatever the network and the parser deliver, the content of a
    page returned by [crawl_url] has at most 5000 characters, does not
    begin with white space, holds no two consecutive blanks and no
    white-space character other than the blank; its title has no leading
    or trailing white space. *)
Theorem page_content_shape (fetch : string -> Page.Response) (url : string)
    (page : PageContent) :
  crawl_url (Page.world_of fetch) url = inl page ->
  (String.length (content page) <= 5000)%nat /\
  Page.no_leading_space (content page) = true /\
  ~ Str.substring_of "  " (content page) /\
  (forall c : ascii, Str.is_space c = true -> c <> " "%char ->
     ~ Str.substring_of (String c EmptyString) (content page)) /\
  Str.strip (title page) = title page.
Proof.
  intros Hpage. destruct (content_shape fetch url page Hpage) as [Hshape Hlead].
  split; [|split; [done|split; [by apply blanks_single_no_double|split]]].
  - unfold crawl_url, Page.world_of in Hpage.
    destruct (fetch url) as [p|msg|msg]; [| |done];
      injection Hpage as <-; cbn [content].
    + apply substring_length_le.
    + cbn. lia.
  - intros c Hc Hne. by apply blanks_single_only_blank.
  - unfold crawl_url, Page.world_of in Hpage.
    destruct (fetch url) as [p|msg|msg]; [| |done];
      injection Hpage as <-; cbn [title]; [|done].
    unfold Page.extract_title. destruct (Page.title_tag p); [apply strip_idem | done].
Qed.

Lemma page_content_shape_witness :
  crawl_url (Page.world_of Site.fetch) "https://example.com/a" = inl Site.page /\
  ((String.length (content Site.page) <= 5000)%nat /\
   Page.no_leading_space (content Site.page) = true /\
   ~ Str.substring_of "  " (content Site.page) /\
   (forall c : ascii, Str.is_space c = true -> c <> " "%char ->
      ~ Str.substring_of (String c EmptyString) (content Site.page)) /\
   Str.strip (title Site.page) = title Site.page).
Proof.
  assert (crawl_url (Page.world_of Site.fetch) "https://example.com/a" = inl Site.page)
    as Hpage by reflexivity.
  split; [exact Hpage|].
  exact (page_content_shape Site.fetch "https://example.com/a" Site.page Hpage).
Defined.

Example crawl_url_run :
  crawl_url (Page.world_of Site.fetch) "https://example.com/a" = inl Site.page /\
  entry_of (Page.world_of Site.fetch) "https://example.com/b"
    = failure_page "https://example.com/b" "404".
Proof. by split. Qed.

Lemma blanks_single_lower (s : string) :
  Page.blanks_single (Str.lower s) = Page.blanks_single s.
Proof.
  induction s as [|c s IH]; [done|]. cbn [Str.lower Page.blanks_single].
  rewrite IH, is_space_lower_char, lower_char_blank.
  destruct s as [|d s]; [done|]. cbn [Str.lower]. by rewrite is_space_lower_char.
Qed.

Lemma blanks_single_substring (p s : string) :
  Str.substring_of p s -> Page.blanks_single s = true -> Page.blanks_single p = true.
Proof.
  intros (pre & post & ->) Hs.
  apply blanks_single_suffix in Hs. by apply blanks_single_prefix in Hs.
Qed.

(** X22: a keyword in which white space is not a single blank (two
    consecutive blanks, a tab, a line break) is never found in the content
    of a crawled page, whatever the page says: the content has been
    collapsed to single blanks, the keyword has not. *)
Theorem untidy_keyword_not_in_content (fetch : string -> Page.Response)
    (url keyword : string) (page : PageContent) :
  crawl_url (Page.world_of fetch) url = inl page ->
  Page.blanks_single keyword = false ->
  check_keyword_presence keyword (content page) = false.
Proof.
  intros Hpage Hkeyword.
  destruct (content_shape fetch url page Hpage) as [Hshape _].
  unfold check_keyword_presence.
  destruct (Str.is_empty (content page) || Str.is_empty keyword); [done|].
  destruct (Str.contains (Str.lower keyword) (Str.lower (content page))) eqn:Hin; [|done].
  apply contains_spec in Hin.
  apply blanks_single_substring in Hin; [|by rewrite blanks_single_lower].
  rewrite blanks_single_lower in Hin. congruence.
Qed.

Lemma untidy_keyword_not_in_content_witness :
  crawl_url (Page.world_of Site.fetch) "https://example.com/a" = inl Site.page /\
  Page.blanks_single "trail  shoes" = false /\
  check_keyword_presence "trail  shoes" (content Site.page) = false.
Proof.
  assert (crawl_url (Page.world_of Site.fetch) "https://example.com/a" = inl Site.page)
    as Hpage by reflexivity.
  assert (Page.blanks_single "trail  shoes" = false) as Hkeyword by reflexivity.
  split; [exact Hpage|]. split; [exact Hkeyword|].
  exact (untidy_keyword_not_in_content Site.fetch "https://example.com/a"
           "trail  shoes" Site.page Hpage Hkeyword).
Defined.

Example tidy_keyword_run :
  check_keyword_presence "trail shoes" (content Site.page) = true /\
  check_keyword_presence "shoes  for" (content Site.page) = false.
Proof. by split. Qed.
